(** * BA-Assist: the streaming client and the iteration page

    A shallow embedding of
      - [frontend/src/api/sse.ts]          ([connectSSE]),
      - [frontend/src/hooks/useSSE.ts]     ([useSSE]: [start], [cancel]),
      - [frontend/src/pages/IteratePage.tsx] (the completion block of the
        render function and [runAnalysis]),
    and the properties of the stream parser, the stream state and the
    iteration history that hold, or fail, on that code.

    Conventions.
      - A JavaScript string is a Rocq [string]: a sequence of code units
        below 256.  [reader.read()] chunks are taken after
        [decoder.decode(value, { stream: true })], that is as the pieces
        of text the decoder hands to the line splitter.
      - A JavaScript number is a rational ([Q]) when it is a score and an
        integer ([Z]) when it is an iteration number.
      - React state is the value the updates issued so far amount to.  An
        updater function that throws does so when React runs it, in the
        next render: that render fails and, the application having no
        error boundary, React takes the component tree off the page.  The
        error is kept beside the state ([render_error]); from then on the
        render function of the page runs no more.
      - Code that calls back, throws and catches is written in the monad
        [js W]: a state of type [W] (whatever the callbacks act on) and a
        completion that is normal or abrupt. *)

From Stdlib Require Import String Ascii List Bool Arith ZArith QArith Lia.
From Stdlib Require Import DecimalString Qround Lqa.
From stdpp Require Import base list.
Import ListNotations.

Local Open Scope list_scope.
Local Open Scope string_scope.

(** ** JavaScript strings *)

Module JsString.

Definition LF : ascii := ascii_of_nat 10.

(** The one-character string that [split] is called with. *)
Definition nl : string := String LF EmptyString.

(** [s.startsWith(p)] *)
Definition startsWith (p s : string) : bool := String.prefix p s.

(** [s.slice(n)] for [n >= 0] *)
Fixpoint slice (n : nat) (s : string) : string :=
  match n, s with
  | O, _ => s
  | S _, EmptyString => EmptyString
  | S n', String _ r => slice n' r
  end.

(** White space of ECMAScript among the code units below 256:
    TAB, LF, VT, FF, CR, SP and NBSP. *)
Definition is_white (c : ascii) : bool :=
  let n := nat_of_ascii c in
  ((9 <=? n)%nat && (n <=? 13)%nat) || (n =? 32)%nat || (n =? 160)%nat.

Fixpoint trimStart (s : string) : string :=
  match s with
  | EmptyString => EmptyString
  | String c r => if is_white c then trimStart r else s
  end.

Fixpoint trimEnd (s : string) : string :=
  match s with
  | EmptyString => EmptyString
  | String c r =>
      match trimEnd r with
      | EmptyString => if is_white c then EmptyString else String c EmptyString
      | r' => String c r'
      end
  end.

(** [s.trim()] *)
Definition trim (s : string) : string := trimEnd (trimStart s).

(** [s.split("\n")]: never empty; the last element is what follows the
    last line feed. *)
Fixpoint split_nl (s : string) : list string :=
  match s with
  | EmptyString => [EmptyString]
  | String c r =>
      if Ascii.eqb c LF then EmptyString :: split_nl r
      else match split_nl r with
           | l :: ls => String c l :: ls
           | [] => [String c EmptyString]
           end
  end.

(** A string is truthy when it is not empty. *)
Definition truthy (s : string) : bool :=
  match s with EmptyString => false | String _ _ => true end.

(** Template-literal rendering of a non-negative integer. *)
Definition of_nat (n : nat) : string := NilZero.string_of_uint (Nat.to_uint n).

(** The text has no line feed in it. *)
Fixpoint one_line (s : string) : bool :=
  match s with
  | EmptyString => true
  | String c r => negb (Ascii.eqb c LF) && one_line r
  end.

(** Lines joined back with a line feed after each of them. *)
Fixpoint unlines (ls : list string) : string :=
  match ls with
  | [] => EmptyString
  | l :: r => l ++ nl ++ unlines r
  end.

End JsString.
Import JsString.

(** ** JSON values and server-sent events ([api/types.ts]) *)

#[warnings="-register-all"]
Inductive json : Type :=
| JNull
| JBool (b : bool)
| JNum (q : Q)
| JStr (s : string)
| JArr (items : list json)
| JObj (fields : list (string * json)).

(** [SSEEvent] *)
Record SSEEvent : Type := { event : string; data : json }.

(** The object literal [{ raw: currentData }]. *)
Definition raw_wrapper (currentData : string) : json :=
  JObj [("raw", JStr currentData)].

(** Property read [o.k] of a decoded payload; [None] is [undefined].  The
    fields of an object have distinct keys. *)
Fixpoint assoc (k : string) (fields : list (string * json)) : option json :=
  match fields with
  | [] => None
  | (k', v) :: r => if String.eqb k k' then Some v else assoc k r
  end.

Definition get (k : string) (o : json) : option json :=
  match o with
  | JObj fields => assoc k fields
  | _ => None
  end.

(** Truthiness of a decoded value. *)
Definition truthy_json (j : json) : bool :=
  match j with
  | JNull => false
  | JBool b => b
  | JNum q => negb (Qeq_bool q 0)
  | JStr s => truthy s
  | JArr _ | JObj _ => true
  end.

(** ** Completions: the monad of code that calls back and may throw *)

Record js_error : Type := { name : string; message : string }.

(** [new Error(msg)] *)
Definition Error (msg : string) : js_error := {| name := "Error"; message := msg |}.

(** What reading a property of [null], or calling what is not a function,
    throws; the message is the engine's and is left empty. *)
Definition TypeError : js_error := {| name := "TypeError"; message := "" |}.

(** The expression [o.k] on a decoded value: it throws when [o] is
    [null], and is [undefined] ([None]) when [o] has no such property. *)
Definition read (k : string) (o : json) : option json + js_error :=
  match o with
  | JNull => inr TypeError
  | _ => inl (get k o)
  end.

(** What [fetch] and [reader.read()] reject with after [controller.abort()]. *)
Definition AbortError : js_error :=
  {| name := "AbortError"; message := "The operation was aborted." |}.

Inductive outcome (W A : Type) : Type :=
| Return (a : A) (w : W)
| Throw (e : js_error) (w : W).
Arguments Return {W A} a w.
Arguments Throw {W A} e w.

Definition js (W A : Type) : Type := W -> outcome W A.

Definition ret {W A} (a : A) : js W A := fun w => Return a w.
Definition throw {W A} (e : js_error) : js W A := fun w => Throw e w.
Definition bind {W A B} (m : js W A) (k : A -> js W B) : js W B :=
  fun w => match m w with
           | Return a w' => k a w'
           | Throw e w' => Throw e w'
           end.
Definition try_catch {W A} (m : js W A) (handler : js_error -> js W A) : js W A :=
  fun w => match m w with
           | Return a w' => Return a w'
           | Throw e w' => handler e w'
           end.

(** The state a computation leaves behind, however it completes. *)
Definition final {W A} (o : outcome W A) : W :=
  match o with Return _ w => w | Throw _ w => w end.

Declare Scope js_scope.
Delimit Scope js_scope with js.
Notation "x <- m ;; k" := (bind m (fun x => k))
  (at level 100, m at next level, right associativity) : js_scope.
Notation "m ;; k" := (bind m (fun _ => k))
  (at level 100, right associativity) : js_scope.
Local Open Scope js_scope.

(** ** [connectSSE] ([api/sse.ts]) *)

(** The two variables of the [while] body that the [for] loop assigns. *)
Record pending : Type := { currentEvent : string; currentData : string }.

Definition no_pending : pending := {| currentEvent := ""; currentData := "" |}.

(** What the network does to one request. *)
Record stream : Type :=
  { reads : list string;          (* the chunks [read()] resolves with *)
    ending : option js_error }.   (* [None]: [done]; [Some e]: [read()] rejects *)

Record response : Type :=
  { status : nat;
    body : option stream }.       (* [response.body], possibly null *)

Inductive fetch_result : Type :=
| Fulfilled (r : response)
| Rejected (e : js_error).

(** [response.ok], which is the status being in the range 200-299. *)
Definition ok_status (st : nat) : bool := (200 <=? st)%nat && (st <=? 299)%nat.

Definition ok (r : response) : bool := ok_status (status r).

(** The error of line 21. *)
Definition http_error (st : nat) (text : string) : js_error :=
  Error ("HTTP " ++ of_nat st ++ ": " ++ text).

(** Reading a body to its end: the whole text, or the error the read
    rejects with. *)
Definition read_all (r : response) : string + js_error :=
  match body r with
  | None => inl ""
  | Some st => match ending st with
               | None => inl (String.concat "" (reads st))
               | Some e => inr e
               end
  end.

Section ConnectSSE.

Context {W : Type}.
(** [JSON.parse], [None] when it throws. *)
Variable JSON_parse : string -> option json.
Variable onEvent : SSEEvent -> js W unit.
Variable onError : option (js_error -> js W unit).

(** Lines 48-53: the [try] around [JSON.parse] and [onEvent], and its
    [catch]. *)
Definition emit (p : pending) : js W unit :=
  try_catch
    (match JSON_parse (currentData p) with
     | Some d => onEvent {| event := currentEvent p; data := d |}
     | None => throw {| name := "SyntaxError"; message := "" |}
     end)
    (fun _ => onEvent {| event := currentEvent p;
                         data := raw_wrapper (currentData p) |}).

(** Lines 42-57: the [for] loop over the complete lines of one read. *)
Fixpoint for_lines (lines : list string) (p : pending) : js W pending :=
  match lines with
  | [] => ret p
  | line :: rest =>
      if startsWith "event: " line then
        for_lines rest {| currentEvent := trim (slice 7 line);
                          currentData := currentData p |}
      else if startsWith "data: " line then
        for_lines rest {| currentEvent := currentEvent p;
                          currentData := slice 6 line |}
      else if String.eqb line "" && truthy (currentEvent p) && truthy (currentData p) then
        emit p ;; for_lines rest no_pending
      else for_lines rest p
  end.

(** Lines 35-57: one turn of the [while] loop after [read()] gave
    [value]; the result is the new [buffer]. *)
Definition on_read (buffer value : string) : js W string :=
  let buffer1 := buffer ++ value in
  let lines := split_nl buffer1 in
  let buffer2 := List.last lines "" in
  let lines' := List.removelast lines in
  for_lines lines' no_pending ;; ret buffer2.

(** Lines 31-58: the [while] loop. *)
Fixpoint read_loop (chunks : list string) (fin : option js_error)
         (buffer : string) : js W unit :=
  match chunks with
  | [] => match fin with
          | None => ret tt
          | Some e => throw e
          end
  | value :: more =>
      buffer' <- on_read buffer value ;; read_loop more fin buffer'
  end.

(** [response.text()] *)
Definition response_text (r : response) : js W string :=
  match read_all r with
  | inl text => ret text
  | inr e => throw e
  end.

(** Lines 18-59: the [then] callback. *)
Definition then_handler (r : response) : js W unit :=
  if negb (ok r) then
    text <- response_text r ;;
    throw (http_error (status r) text)
  else
    match body r with
    | None => throw (Error "No response body")
    | Some st => read_loop (reads st) (ending st) ""
    end.

(** Lines 60-64: the [catch] callback. *)
Definition catch_handler (err : js_error) : js W unit :=
  if negb (String.eqb (name err) "AbortError") then
    match onError with
    | Some f => f err
    | None => ret tt
    end
  else ret tt.

(** The promise chain [fetch(...).then(...).catch(...)]. *)
Definition connectSSE (net : fetch_result) : js W unit :=
  match net with
  | Rejected e => catch_handler e
  | Fulfilled r => try_catch (then_handler r) catch_handler
  end.

End ConnectSSE.

(** ** Observing the callbacks

    The state is the list of the calls made so far; both callbacks
    return normally. *)

Inductive call : Type :=
| CalledEvent (ev : SSEEvent)
| CalledError (err : js_error).

Definition record_event (ev : SSEEvent) : js (list call) unit :=
  fun t => Return tt (t ++ [CalledEvent ev])%list.

Definition record_error (err : js_error) : js (list call) unit :=
  fun t => Return tt (t ++ [CalledError err])%list.

(** The calls [connectSSE] makes for what the network does. *)
Definition calls (JSON_parse : string -> option json) (net : fetch_result) : list call :=
  final (connectSSE JSON_parse record_event (Some record_error) net []).

(** The events the frame parser (the [while] loop) emits for the chunks
    of a body that ends normally. *)
Definition parsed_events (JSON_parse : string -> option json)
           (chunks : list string) : list call :=
  final (read_loop JSON_parse record_event chunks None "" []).

(** A recorded call that hands over a [complete] event. *)
Definition is_complete (c : call) : bool :=
  match c with
  | CalledEvent ev => String.eqb (event ev) "complete"
  | CalledError _ => false
  end.

(** Whether the turn of the [while] loop for the read [value], with
    [buffer] carried over, hands a [complete] event to the event
    callback. *)
Definition emits_complete (JSON_parse : string -> option json)
           (buffer value : string) : bool :=
  existsb is_complete (final (on_read JSON_parse record_event buffer value [])).

(** ** Payloads of the scenarios

    [scenario_parse] is [JSON.parse] on the payloads the scenarios of this
    file use; any other text counts as undecodable. *)

Definition dq : string := String (ascii_of_nat 34) EmptyString.
Definition quoted (s : string) : string := dq ++ s ++ dq.

Definition payload_progress : string :=
  "{" ++ quoted "message" ++ ":" ++ quoted "step1" ++ "}".

Definition payload_round (n score : string) : string :=
  "{" ++ quoted "result" ++ ":{" ++ quoted "iteration_number" ++ ":" ++ n ++ ","
      ++ quoted "overall_score" ++ ":" ++ score ++ "}}".

Definition round_json (n score : Z) : json :=
  JObj [("result", JObj [("iteration_number", JNum (inject_Z n));
                         ("overall_score", JNum (inject_Z score))])].

Definition scenario_parse (s : string) : option json :=
  if String.eqb s "{}" then Some (JObj [])
  else if String.eqb s "null" then Some JNull
  else if String.eqb s payload_progress then Some (JObj [("message", JStr "step1")])
  else if String.eqb s (payload_round "1" "55") then Some (round_json 1 55)
  else if String.eqb s (payload_round "2" "78") then Some (round_json 2 78)
  else if String.eqb s (payload_round "3" "82") then Some (round_json 3 82)
  else None.

(** The text of one frame: an [event: ] line, a [data: ] line, a blank line. *)
Definition frame (ev payload : string) : string :=
  unlines ["event: " ++ ev; "data: " ++ payload; ""].

(** ** [useSSE] ([hooks/useSSE.ts]) *)

Module UseSSE.

(** [SSEState<T>] *)
Record SSEState (T : Type) : Type :=
  { loading : bool;
    progress : json;                (* a string, unless a payload had another [message] *)
    progressDetail : option json;
    result : option T;
    error : option string }.
Arguments loading {T} _.
Arguments progress {T} _.
Arguments progressDetail {T} _.
Arguments result {T} _.
Arguments error {T} _.

(** The argument of [useState] (lines 14-20). *)
Definition initial {T : Type} : SSEState T :=
  {| loading := false; progress := JStr ""; progressDetail := None;
     result := None; error := None |}.

(** The state [start] installs (lines 35-41). *)
Definition starting {T : Type} : SSEState T :=
  {| loading := true; progress := JStr "Starting..."; progressDetail := None;
     result := None; error := None |}.

(** [m || ""] for a property [m] that was read: the cast [as string] of
    line 54 does nothing when the code runs. *)
Definition or_empty (m : option json) : json :=
  match m with
  | Some v => if truthy_json v then v else JStr ""
  | None => JStr ""
  end.

(** The first error queued for the next render stays. *)
Definition fails (e : js_error) (queued : option js_error) : option js_error :=
  match queued with
  | Some e0 => Some e0
  | None => Some e
  end.

(** What a callback of the page acts on: the state cells of the page, and
    the error of an updater function it queued that throws. *)
Record page_cells (P : Type) : Type :=
  { cells : P; queued_error : option js_error }.
Arguments cells {P} _.
Arguments queued_error {P} _.

(** A state setter of the page called with an updater function. *)
Definition update {P : Type} (f : P -> P + js_error) : js (page_cells P) unit :=
  fun p => match f (cells p) with
           | inl c => Return tt {| cells := c; queued_error := queued_error p |}
           | inr e => Return tt {| cells := cells p;
                                   queued_error := fails e (queued_error p) |}
           end.

(** Where the promise chain of one [connectSSE] call stands. *)
Inductive phase : Type :=
| Connecting                    (* [fetch] pending *)
| ReadingText (status : nat)    (* [response.text()] pending, [!response.ok] *)
| Reading (buffer : string)     (* in the [while] loop, [read()] pending *)
| Settled.                      (* the chain has run to its end *)

(** What the network delivers to one pending promise. *)
Inductive delivery : Type :=
| Responded (status : nat) (has_body : bool)
| TextRead (text : string)
| ChunkRead (value : string)
| ReadDone
| Failed (e : js_error).

(** The deliveries one request gets when the network does [net]. *)
Definition deliveries (net : fetch_result) : list delivery :=
  match net with
  | Rejected e => [Failed e]
  | Fulfilled r =>
      Responded (status r) (match body r with Some _ => true | None => false end)
      :: (if negb (ok r) then
            [match read_all r with
             | inl text => TextRead text
             | inr e => Failed e
             end]
          else
            match body r with
            | None => []
            | Some st =>
                (List.map ChunkRead (reads st)
                 ++ [match ending st with
                     | None => ReadDone
                     | Some e => Failed e
                     end])%list
            end)
  end.

Section Hook.

Context {T P : Type}.
Variable JSON_parse : string -> option json.
(** The cast [event.data as unknown as T]. *)
Variable as_T : json -> T.

(** The third argument of [start]; [P] is what [onProgress] acts on. *)
Record options : Type :=
  { onProgress : option (SSEEvent -> js (page_cells P) unit);
    extractResult : option (SSEEvent -> T) }.

(** What the callbacks given to [connectSSE] act on: the state of the
    hook, the state cells of the page, and the error, if any, that makes
    the next render fail. *)
Record world : Type :=
  { state : SSEState T; observer : P; render_error : option js_error }.

(** One [connectSSE] call: its promise chain and the [options] its
    callbacks closed over. *)
Record request : Type := { stage : phase; opts : option options }.

(** The hook, with every request it has opened; an [AbortController] is
    the index of its request. *)
Record client : Type :=
  { current : world;
    controllerRef : option nat;
    requests : list request }.

(** [setState] called with an updater function; called with a value, the
    updater is constant. *)
Definition setState (f : SSEState T -> SSEState T + js_error) : js world unit :=
  fun w => match f (state w) with
           | inl s => Return tt {| state := s; observer := observer w;
                                   render_error := render_error w |}
           | inr e => Return tt {| state := state w; observer := observer w;
                                   render_error := fails e (render_error w) |}
           end.

(** A callback of the page, run from a callback of the hook. *)
Definition on_page {A : Type} (m : js (page_cells P) A) : js world A :=
  fun w =>
    match m {| cells := observer w; queued_error := render_error w |} with
    | Return a p => Return a {| state := state w; observer := cells p;
                                render_error := queued_error p |}
    | Throw e p => Throw e {| state := state w; observer := cells p;
                              render_error := queued_error p |}
    end.

(** [options?.onProgress?.(event)] *)
Definition call_onProgress (o : option options) (ev : SSEEvent) : js world unit :=
  match o with
  | Some {| onProgress := Some f |} => on_page (f ev)
  | _ => ret tt
  end.

(** Lines 50-72: the event callback. *)
Definition on_event (o : option options) (ev : SSEEvent) : js world unit :=
  if String.eqb (event ev) "progress" then
    setState (fun prev =>
      match read "message" (data ev) with
      | inl m =>
          inl {| loading := loading prev;
                 progress := or_empty m;
                 progressDetail := Some (data ev);
                 result := result prev;
                 error := error prev |}
      | inr e => inr e
      end) ;;
    call_onProgress o ev
  else if String.eqb (event ev) "dimension_complete"
          || String.eqb (event ev) "step_complete"
          || String.eqb (event ev) "artifact_complete" then
    call_onProgress o ev
  else if String.eqb (event ev) "complete" then
    let r := match o with
             | Some {| extractResult := Some f |} => f ev
             | _ => as_T (data ev)
             end in
    setState (fun _ =>
      inl {| loading := false; progress := JStr ""; progressDetail := None;
             result := Some r; error := None |})
  else ret tt.

(** Lines 73-79: the error callback. *)
Definition on_error (err : js_error) : js world unit :=
  setState (fun prev =>
    inl {| loading := false;
           progress := progress prev;
           progressDetail := progressDetail prev;
           result := result prev;
           error := Some (message err) |}).

(** A promise chain takes one more step [m]; what [m] throws goes to the
    [catch] callback, after which the chain is settled. *)
Definition advance (k : nat) (o : option options) (m : js world phase)
           (c : client) : client :=
  let r := try_catch m (fun e => catch_handler (Some on_error) e ;; ret Settled)
                     (current c) in
  {| current := final r;
     controllerRef := controllerRef c;
     requests := <[k := {| stage := match r with
                                    | Return ph _ => ph
                                    | Throw _ _ => Settled
                                    end;
                           opts := o |}]> (requests c) |}.

(** [controller.abort()]: the pending promise of the request rejects with
    an [AbortError]; a settled request is left alone. *)
Definition abort (k : nat) (c : client) : client :=
  match requests c !! k with
  | Some {| stage := Settled |} => c
  | Some {| opts := o |} => advance k o (throw AbortError) c
  | None => c
  end.

(** The network resolves or rejects the pending promise of request [k];
    a delivery the request does not wait for is not received. *)
Definition deliver (k : nat) (d : delivery) (c : client) : client :=
  match requests c !! k with
  | None => c
  | Some {| stage := ph; opts := o |} =>
      match ph, d with
      | Settled, _ => c
      | _, Failed e => advance k o (throw e) c
      | Connecting, Responded st has_body =>
          if negb (ok_status st) then advance k o (ret (ReadingText st)) c
          else if has_body then advance k o (ret (Reading "")) c
          else advance k o (throw (Error "No response body")) c
      | ReadingText st, TextRead text =>
          advance k o (throw (http_error st text)) c
      | Reading buffer, ChunkRead value =>
          advance k o (buffer' <- on_read JSON_parse (on_event o) buffer value ;;
                       ret (Reading buffer')) c
      | Reading _, ReadDone => advance k o (ret Settled) c
      | _, _ => c
      end
  end.

(** Lines 23-85: [start]; the url and the body of the request only
    matter to the server. *)
Definition start (o : option options) (c : client) : client :=
  let c1 := match controllerRef c with
            | Some k => abort k c
            | None => c
            end in
  {| current := {| state := starting; observer := observer (current c1);
                   render_error := render_error (current c1) |};
     controllerRef := Some (List.length (requests c1));
     requests := (requests c1 ++ [{| stage := Connecting; opts := o |}])%list |}.

(** Lines 87-90: [cancel]. *)
Definition cancel (c : client) : client :=
  let c1 := match controllerRef c with
            | Some k => abort k c
            | None => c
            end in
  {| current := {| state := {| loading := false;
                               progress := JStr "";
                               progressDetail := progressDetail (state (current c1));
                               result := result (state (current c1));
                               error := error (state (current c1)) |};
                   observer := observer (current c1);
                   render_error := render_error (current c1) |};
     controllerRef := controllerRef c1;
     requests := requests c1 |}.

(** The hook on its first render. *)
Definition mount (p : P) : client :=
  {| current := {| state := initial; observer := p; render_error := None |};
     controllerRef := None;
     requests := [] |}.

(** The promise chain of request [k] has run to its end. *)
Definition settled (k : nat) (c : client) : bool :=
  match requests c !! k with
  | Some {| stage := Settled |} => true
  | _ => false
  end.

(** The controller the hook holds is one of a request it has opened. *)
Definition holds_own_controller (c : client) : Prop :=
  forall k, controllerRef c = Some k -> (k < List.length (requests c))%nat.

End Hook.

Arguments options : clear implicits.
Arguments world : clear implicits.
Arguments request : clear implicits.
Arguments client : clear implicits.

End UseSSE.

(** ** Payload types ([api/types.ts], [IteratePage.tsx] lines 11-15) *)

(** [AnalysisResult], the fields the page computes with; the lists it
    only displays are left out. *)
Record AnalysisResult : Type :=
  { overall_score : Q;
    iteration_number : Z }.

Record ComparisonReport : Type :=
  { previous_iteration : Z;
    current_iteration : Z;
    previous_score : Q;
    current_score : Q;
    score_delta : Q;
    improved_dimensions : list string;
    regressed_dimensions : list string;
    resolved_issues : list string;
    new_issues : list string }.

Module IterationResult.

(** [result] is optional because the page reads it with [?.]. *)
Record t : Type :=
  { result : option AnalysisResult;
    comparison : option ComparisonReport;
    is_ready : bool }.

End IterationResult.

(** ** [IteratePage] ([pages/IteratePage.tsx]) *)

Module IteratePage.

Import UseSSE.

(** An element of the [history] state. *)
Record entry : Type := { iteration : Z; score : Q }.

(** [CompletedStep], without its [completedAt] clock reading. *)
Record CompletedStep : Type :=
  { step_name : option json;
    step_score : option json }.

(** The state [handleProgress] acts on. *)
Record steps : Type :=
  { completedSteps : list CompletedStep;
    totalSteps : option json }.

(** The [useState] cells the completion block reads and writes. *)
Record page : Type :=
  { threshold : Q;
    history : list entry;
    isReady : bool;
    comparison : option ComparisonReport }.

(** Truthiness of a property read. *)
Definition truthy_value (v : option json) : bool :=
  match v with
  | None => false
  | Some j => truthy_json j
  end.

(** [setTotalSteps(v)] *)
Definition setTotalSteps (v : option json) : js (page_cells steps) unit :=
  update (fun s => inl {| completedSteps := completedSteps s; totalSteps := v |}).

(** [setCompletedSteps(f)] with an updater function [f]. *)
Definition setCompletedSteps
           (f : list CompletedStep -> list CompletedStep + js_error)
  : js (page_cells steps) unit :=
  update (fun s => match f (completedSteps s) with
                   | inl l => inl {| completedSteps := l; totalSteps := totalSteps s |}
                   | inr e => inr e
                   end).

(** The object literal of lines 39-43, which reads [event.data] when the
    updater runs. *)
Definition completed_step (d : json) : CompletedStep + js_error :=
  match read "dimension" d with
  | inl n => match read "score" d with
             | inl sc => inl {| step_name := n; step_score := sc |}
             | inr e => inr e
             end
  | inr e => inr e
  end.

(** Lines 33-47: [handleProgress].  The test of line 34 reads
    [event.data.total] in the callback itself. *)
Definition handleProgress (ev : SSEEvent) : js (page_cells steps) unit :=
  (if String.eqb (event ev) "progress" then
     match read "total" (data ev) with
     | inl total => if truthy_value total then setTotalSteps total else ret tt
     | inr e => throw e
     end
   else ret tt) ;;
  if String.eqb (event ev) "dimension_complete" then
    setCompletedSteps (fun prev =>
      match completed_step (data ev) with
      | inl st => inl (prev ++ [st])%list
      | inr e => inr e
      end)
  else ret tt.

(** [result.result?.iteration_number || 0] *)
Definition declared_iteration (r : IterationResult.t) : Z :=
  match IterationResult.result r with
  | Some a => if Z.eqb (iteration_number a) 0 then 0%Z else iteration_number a
  | None => 0%Z
  end.

(** The test of line 73, for a [result] that is not null. *)
Definition commits (r : IterationResult.t) (p : page) : bool :=
  (Z.of_nat (List.length (history p)) <? declared_iteration r)%Z.

(** Lines 72-81: what one run of the render function does to the state,
    given [analysis.result]. *)
Definition on_render (res : option IterationResult.t) (p : page) : page :=
  match res with
  | None => p
  | Some r =>
      if commits r p then
        match IterationResult.result r with
        | Some a =>
            {| threshold := threshold p;
               history := (history p ++ [{| iteration := iteration_number a;
                                            score := overall_score a |}])%list;
               isReady := IterationResult.is_ready r;
               comparison := IterationResult.comparison r |}
        | None => p
        end
      else p
  end.

(** The render function run again [n] times, as React does while a run
    sets state. *)
Definition rerender (n : nat) (res : option IterationResult.t) (p : page) : page :=
  Nat.iter n (on_render res) p.

Section App.

Variable JSON_parse : string -> option json.
(** The cast of line 65, [event.data as unknown as IterationResult]. *)
Variable as_IterationResult : json -> IterationResult.t.

Definition hook : Type := client IterationResult.t steps.

(** The third argument of [analysis.start] in [runAnalysis] (lines 64-67). *)
Definition analysis_options : options IterationResult.t steps :=
  {| onProgress := Some handleProgress;
     extractResult := Some (fun ev => as_IterationResult (data ev)) |}.

(** The component: the hook [analysis] and the page's own state. *)
Record app : Type := { analysis : hook; view : page }.

Inductive action : Type :=
| RunAnalysis                           (* [runAnalysis()] *)
| CancelClicked                         (* [analysis.cancel()] *)
| Network (k : nat) (d : delivery)      (* a promise of request [k] settles *)
| Render.                               (* the render function runs *)

(** Lines 56-69: [runAnalysis]. *)
Definition runAnalysis (s : app) : app :=
  let h := analysis s in
  let cleared :=
    {| current := {| state := state (current h);
                     observer := {| completedSteps := []; totalSteps := None |};
                     render_error := render_error (current h) |};
       controllerRef := controllerRef h;
       requests := requests h |} in
  {| analysis := start (Some analysis_options) cleared; view := view s |}.

(** One action.  Once a render has failed the page is gone, and with it
    its buttons; the clicks are modelled all the same, so the runs of
    this model include those of the page. *)
Definition step (a : action) (s : app) : app :=
  match a with
  | RunAnalysis => runAnalysis s
  | CancelClicked => {| analysis := cancel (analysis s); view := view s |}
  | Network k d =>
      {| analysis := deliver JSON_parse as_IterationResult k d (analysis s);
         view := view s |}
  | Render =>
      {| analysis := analysis s;
         view := match render_error (current (analysis s)) with
                 | Some _ => view s
                 | None => on_render (result (state (current (analysis s)))) (view s)
                 end |}
  end.

Definition run (tr : list action) (s : app) : app :=
  fold_left (fun s a => step a s) tr s.

(** The states the page goes through over [tr]: the one before each
    action, and the last one. *)
Fixpoint states (tr : list action) (s : app) : list app :=
  s :: match tr with
       | [] => []
       | a :: rest => states rest (step a s)
       end.

(** The page when it is first shown, with the default target score. *)
Definition mounted : app :=
  {| analysis := mount {| completedSteps := []; totalSteps := None |};
     view := {| threshold := 80; history := []; isReady := false;
                comparison := None |} |}.

(** An action that is a delivery to request [k]. *)
Definition from_request (k : nat) (a : action) : bool :=
  match a with
  | Network k' _ => Nat.eqb k k'
  | _ => false
  end.

(** What may still happen on behalf of request [k] once the user has
    left it: deliveries to it, and runs of the render function. *)
Definition leftover (k : nat) (a : action) : bool :=
  match a with
  | Network k' _ => Nat.eqb k k'
  | Render => true
  | _ => false
  end.

End App.

End IteratePage.

(** ** Typed reading of the scenario payloads

    The cast of line 65 does nothing when the code runs; in this file
    its result has the declared type [IterationResult], with whole
    iteration numbers.  [typed] reads the payloads that are of that type:
    a [result], when there is one, carries a score that is a number and
    an iteration number that is a whole number; a [comparison], when
    there is one, carries its nine fields; [is_ready] is a boolean, or is
    missing and reads as false.  A missing or null [result] or
    [comparison] is absent.  Any other payload has no reading at that
    type: [scenario_parse] yields none, and [scenario_cast] takes it for
    the empty object. *)

Definition number_of (v : option json) : option Q :=
  match v with Some (JNum q) => Some q | _ => None end.

Definition whole_of (v : option json) : option Z :=
  match v with
  | Some (JNum q) =>
      if Qeq_bool q (inject_Z (Qfloor q)) then Some (Qfloor q) else None
  | _ => None
  end.

Definition strings_of (v : option json) : option (list string) :=
  match v with
  | Some (JArr items) =>
      fold_right (fun j acc => match j, acc with
                               | JStr s, Some l => Some (s :: l)
                               | _, _ => None
                               end)
                 (Some []) items
  | _ => None
  end.

Definition analysis_of (o : json) : option AnalysisResult :=
  match number_of (get "overall_score" o), whole_of (get "iteration_number" o) with
  | Some sc, Some n => Some {| overall_score := sc; iteration_number := n |}
  | _, _ => None
  end.

Definition comparison_of (o : json) : option ComparisonReport :=
  match whole_of (get "previous_iteration" o), whole_of (get "current_iteration" o),
        number_of (get "previous_score" o), number_of (get "current_score" o),
        number_of (get "score_delta" o),
        strings_of (get "improved_dimensions" o),
        strings_of (get "regressed_dimensions" o),
        strings_of (get "resolved_issues" o), strings_of (get "new_issues" o) with
  | Some pi, Some ci, Some ps, Some cs, Some sd, Some im, Some re, Some rs, Some ne =>
      Some {| previous_iteration := pi; current_iteration := ci;
              previous_score := ps; current_score := cs; score_delta := sd;
              improved_dimensions := im; regressed_dimensions := re;
              resolved_issues := rs; new_issues := ne |}
  | _, _, _, _, _, _, _, _, _ => None
  end.

(** A property that may be missing or null. *)
Definition optional {A : Type} (f : json -> option A) (v : option json)
  : option (option A) :=
  match v with
  | None | Some JNull => Some None
  | Some o => option_map Some (f o)
  end.

Definition typed (d : json) : option IterationResult.t :=
  match optional analysis_of (get "result" d),
        optional comparison_of (get "comparison" d),
        match get "is_ready" d with
        | None => Some false
        | Some (JBool b) => Some b
        | Some _ => None
        end with
  | Some r, Some c, Some f =>
      Some {| IterationResult.result := r;
              IterationResult.comparison := c;
              IterationResult.is_ready := f |}
  | _, _, _ => None
  end.

Definition scenario_cast (d : json) : IterationResult.t :=
  match typed d with
  | Some r => r
  | None => {| IterationResult.result := None;
               IterationResult.comparison := None;
               IterationResult.is_ready := false |}
  end.

(** ** More observers of the callbacks *)


(** An event callback that records the call and then throws when the
    data is the empty object. *)
Definition record_event_or_throw (ev : SSEEvent) : js (list call) unit :=
  fun t =>
    match data ev with
    | JObj [] => Throw (Error "empty payload") (t ++ [CalledEvent ev])%list
    | _ => Return tt (t ++ [CalledEvent ev])%list
    end.

(** A string that does not start with white space. *)
Definition starts_clean (s : string) : Prop :=
  match s with
  | EmptyString => True
  | String c _ => is_white c = false
  end.

(** A string of white space only, the empty string included. *)
Fixpoint blank (s : string) : bool :=
  match s with
  | EmptyString => true
  | String c r => is_white c && blank r
  end.

(** ** [AnalysePage] ([pages/AnalysePage.tsx]) *)

Module AnalysePage.

Import IteratePage.

(** [s.replace(/_/g, " ")] *)
Fixpoint replace_underscores (s : string) : string :=
  match s with
  | EmptyString => EmptyString
  | String c r =>
      String (if Ascii.eqb c (ascii_of_nat 95) then ascii_of_nat 32 else c)
             (replace_underscores r)
  end.

(** The object literal of line 39, which reads [event.data] when the
    updater runs: [replace] is a method of strings only. *)
Definition detected_step (d : json) : CompletedStep + js_error :=
  match read "artifact_type" d with
  | inl (Some (JStr s)) =>
      inl {| step_name := Some (JStr ("Detected: " ++ replace_underscores s));
             step_score := None |}
  | inl _ => inr TypeError
  | inr e => inr e
  end.

(** Lines 22-42: [handleProgress]: the one of [IteratePage], and a third
    test. *)
Definition handleProgress (ev : SSEEvent) : js (UseSSE.page_cells steps) unit :=
  IteratePage.handleProgress ev ;;
  if String.eqb (event ev) "type_detected" then
    setCompletedSteps (fun prev =>
      match detected_step (data ev) with
      | inl st => inl (prev ++ [st])%list
      | inr e => inr e
      end)
  else ret tt.

End AnalysePage.

(** ** Invariants of the hook *)

(** Every request but the one whose controller the hook holds has run to
    its end. *)
Definition one_request_at_most {T P : Type} (c : UseSSE.client T P) : Prop :=
  forall k, (k < List.length (UseSSE.requests c))%nat ->
            UseSSE.controllerRef c <> Some k ->
            UseSSE.settled k c = true.

(** Every entry of the history has an iteration number above its index. *)
Definition iterations_above_index (p : IteratePage.page) : Prop :=
  forall (i : nat) (e : IteratePage.entry),
    IteratePage.history p !! i = Some e -> (Z.of_nat i < IteratePage.iteration e)%Z.

(** ** [request] ([api/client.ts], lines 3-13) *)

Module Client.

Section Request.

(** [res.json()] on the text of a body: the value, or the error it
    rejects with. *)
Variable json_of : string -> json + js_error.

(** What the promise [request(path, options)] settles with, given what
    the network does: [inl] when it resolves, [inr] when it rejects. *)
Definition request (net : fetch_result) : json + js_error :=
  match net with
  | Rejected e => inr e
  | Fulfilled r =>
      if negb (ok r) then
        match read_all r with
        | inl text => inr (http_error (status r) text)
        | inr e => inr e
        end
      else
        match read_all r with
        | inl text => json_of text
        | inr e => inr e
        end
  end.

End Request.

End Client.

(** ** The configuration store ([stores/configStore.ts]) and its page *)

Module ConfigStore.

(** The data fields of [ConfigStore]. *)
Record store : Type :=
  { config : option json;
    loading : bool;
    error : option string }.

(** The argument of [create] (lines 13-15). *)
Definition initial : store := {| config := None; loading := false; error := None |}.

(** Lines 17-18: the [set] before the [await]. *)
Definition fetchConfig_begin (s : store) : store :=
  {| config := config s; loading := true; error := None |}.

(** Lines 19-23: the [set] after [api.getConfig()] has settled. *)
Definition fetchConfig_end (settled : json + js_error) (s : store) : store :=
  match settled with
  | inl data => {| config := Some data; loading := false; error := error s |}
  | inr err => {| config := config s; loading := false; error := Some (message err) |}
  end.

(** [fetchConfig] with nothing else happening while it waits. *)
Definition fetchConfig (settled : json + js_error) (s : store) : store :=
  fetchConfig_end settled (fetchConfig_begin s).

(** What [ConfigPage] returns (ConfigPage.tsx, lines 12-31). *)
Inductive shown : Type :=
| Spinner
| ErrorBox (msg : string)
| Nothing
| Table (cfg : json).

(** A stored config is truthy unless it is a falsy JSON value. *)
Definition has_config (s : store) : bool :=
  match config s with
  | None => false
  | Some j => IteratePage.truthy_value (Some j)
  end.

Definition ConfigPage (s : store) : shown :=
  let table := match config s with
               | Some j => if has_config s then Table j else Nothing
               | None => Nothing
               end in
  if loading s && negb (has_config s) then Spinner
  else match error s with
       | Some msg => if truthy msg then ErrorBox msg else table
       | None => table
       end.

End ConfigStore.

(** ** The rest of [IteratePage]: the artifact and its handlers
    ([pages/IteratePage.tsx], lines 49-54 and 83-101)

    The session id and the artifact text are kept as the JavaScript
    values the handlers put there ([None] is [undefined]).  Each handler
    is given what its API call settles with, and is run with nothing else
    happening while it waits. *)

Module IterateSession.

Import UseSSE IteratePage.

Record session : Type :=
  { sessionId : option json;
    artifactText : option json;
    editMode : bool;
    editText : string;
    applying : bool;
    page : app }.

Section Handlers.

Variable cast : json -> IterationResult.t.

(** The page when it is first shown. *)
Definition fresh : session :=
  {| sessionId := Some (JStr ""); artifactText := Some (JStr "");
     editMode := false; editText := ""; applying := false; page := mounted |}.

(** Reading a property of what an API call resolved with: [null] has
    none. *)
Definition property (k : string) (j : json) : js session (option json) :=
  match j with
  | JNull => throw TypeError
  | _ => ret (get k j)
  end.

Definition run_analysis : js session unit :=
  fun s => Return tt
    {| sessionId := sessionId s; artifactText := artifactText s;
       editMode := editMode s; editText := editText s; applying := applying s;
       page := runAnalysis cast (page s) |}.

Definition setSessionId (v : option json) : js session unit :=
  fun s => Return tt
    {| sessionId := v; artifactText := artifactText s;
       editMode := editMode s; editText := editText s; applying := applying s;
       page := page s |}.

Definition setArtifactText (v : option json) : js session unit :=
  fun s => Return tt
    {| sessionId := sessionId s; artifactText := v;
       editMode := editMode s; editText := editText s; applying := applying s;
       page := page s |}.

Definition setEditMode (b : bool) : js session unit :=
  fun s => Return tt
    {| sessionId := sessionId s; artifactText := artifactText s;
       editMode := b; editText := editText s; applying := applying s;
       page := page s |}.

Definition setApplying (b : bool) : js session unit :=
  fun s => Return tt
    {| sessionId := sessionId s; artifactText := artifactText s;
       editMode := editMode s; editText := editText s; applying := b;
       page := page s |}.

(** [await] of a promise that has settled. *)
Definition await (settled : json + js_error) : js session json :=
  match settled with
  | inl j => ret j
  | inr e => throw e
  end.

(** [try { m } finally { f }] *)
Definition try_finally {A : Type} (m : js session A) (f : js session unit) : js session A :=
  fun s => match m s with
           | Return a s' => (f ;; ret a) s'
           | Throw e s' => (f ;; throw e) s'
           end.

(** Lines 49-54: [startSession]. *)
Definition startSession (text : string) (settled : json + js_error) : js session unit :=
  setArtifactText (Some (JStr text)) ;;
  created <- await settled ;;
  id <- property "id" created ;;
  setSessionId id ;;
  run_analysis.

(** Lines 83-93: [handleApplySuggestions]. *)
Definition handleApplySuggestions (ids : list string) (settled : json + js_error)
  : js session unit :=
  fun s =>
    if negb (truthy_value (sessionId s)) || Nat.eqb (List.length ids) 0
    then Return tt s
    else (setApplying true ;;
          try_finally
            (reply <- await settled ;;
             artifact_text <- property "artifact_text" reply ;;
             setArtifactText artifact_text ;;
             run_analysis)
            (setApplying false)) s.

(** Lines 95-101: [handleSaveEdit]. *)
Definition handleSaveEdit (settled : json + js_error) : js session unit :=
  fun s =>
    if negb (truthy_value (sessionId s)) then Return tt s
    else (await settled ;;
          setArtifactText (Some (JStr (editText s))) ;;
          setEditMode false ;;
          run_analysis) s.

End Handlers.

End IterateSession.

(** ** [ComparePage] ([pages/ComparePage.tsx]) *)

Module ComparePage.

Import UseSSE.

Inductive step_t : Type := Step1 | Step2 | Running | Done.

Section Page.

(** [CompareResult], which the page only hands to [CompareView]. *)
Context {CompareResult : Type}.

Record page : Type :=
  { text1 : string;
    text2 : string;
    step : step_t;
    comparison : client CompareResult unit }.

Definition mounted : page :=
  {| text1 := ""; text2 := ""; step := Step1; comparison := mount tt |}.

(** Lines 20-23 *)
Definition handleFile1 (text : string) (p : page) : page :=
  {| text1 := text; text2 := text2 p; step := Step2; comparison := comparison p |}.

(** Lines 25-32 *)
Definition handleFile2 (text : string) (p : page) : page :=
  {| text1 := text1 p; text2 := text; step := Running;
     comparison := start None (comparison p) |}.

(** Lines 34-36: what a run of the render function does to the state. *)
Definition on_render (p : page) : page :=
  match result (state (current (comparison p))), step p with
  | Some _, Done => p
  | Some _, _ => {| text1 := text1 p; text2 := text2 p; step := Done;
                    comparison := comparison p |}
  | None, _ => p
  end.

(** Line 77: the [New comparison] button. *)
Definition newComparison (p : page) : page :=
  {| text1 := ""; text2 := ""; step := Step1; comparison := comparison p |}.

(** Lines 47-62: whether an upload box is on the page. *)
Definition shows_upload (p : page) : bool :=
  match step p with
  | Step1 | Step2 => true
  | _ => false
  end.

End Page.

Arguments page : clear implicits.

End ComparePage.

(** ** [SuggestionsList] ([components/analysis/SuggestionsList.tsx])

    A [Set<string>] is the list of its elements in insertion order,
    without repetition. *)

Module SuggestionsList.

Definition has (id : string) (s : list string) : bool :=
  existsb (String.eqb id) s.

(** [s.add(id)] *)
Definition add (id : string) (s : list string) : list string :=
  if has id s then s else (s ++ [id])%list.

(** [s.delete(id)] *)
Definition delete (id : string) (s : list string) : list string :=
  List.filter (fun x => negb (String.eqb id x)) s.

(** [new Set(ids)] *)
Definition set_of (ids : list string) : list string :=
  fold_left (fun s id => add id s) ids [].

(** Lines 13-20: [toggle]. *)
Definition toggle (id : string) (selected : list string) : list string :=
  if has id selected then delete id selected else add id selected.

(** Lines 22-24: [selectAll], from the ids of the suggestions. *)
Definition selectAll (ids : list string) : list string := set_of ids.

(** Line 44: the [Apply Selected] button is disabled. *)
Definition apply_disabled (selected : list string) : bool :=
  Nat.eqb (List.length selected) 0.

End SuggestionsList.

(** ** Score trends
    ([pages/IteratePage.tsx] lines 231-238, [ScoreDelta] of
    [components/compare/CompareView.tsx]) *)

Module Scores.

(** [a >= b] on numbers *)
Definition geq (a b : Q) : bool := Qle_bool b a.

(** [a > b] on numbers *)
Definition gt (a b : Q) : bool := negb (Qle_bool a b).

Inductive icon : Type := ArrowUp | ArrowDown | Minus.

(** IteratePage.tsx, lines 231-238: the arrow and its colour beside a
    history entry that has a predecessor. *)
Definition historyTrend (previous current : Q) : icon * string :=
  (if gt current previous then ArrowUp else ArrowDown,
   if gt current previous then "text-green-600" else "text-red-500").

(** CompareView.tsx, [ScoreDelta]: the icon and its colour. *)
Definition ScoreDelta (delta : Q) : icon * string :=
  (if gt delta 0 then ArrowUp else if gt 0 delta then ArrowDown else Minus,
   if gt delta 0 then "text-green-600"
   else if gt 0 delta then "text-red-600" else "text-muted-foreground").

End Scores.

(** ** [formatElapsed] ([components/shared/ProgressStream.tsx], lines 21-27) *)

Module ProgressStream.

(** Template-literal rendering of an integer. *)
Definition of_Z (z : Z) : string :=
  if (z <? 0)%Z then "-" ++ of_nat (Z.abs_nat z) else of_nat (Z.to_nat z).

(** [ms] is a whole number of milliseconds; [Math.floor] of a quotient
    is [Z.div], and [%] is [Z.rem]. *)
Definition formatElapsed (ms : Z) : string :=
  let secs := (ms / 1000)%Z in
  let mins := (secs / 60)%Z in
  let remainSecs := Z.rem secs 60 in
  if (0 <? mins)%Z then of_Z mins ++ "m " ++ of_Z remainSecs ++ "s"
  else of_Z secs ++ "s".

End ProgressStream.

(** ** Pasted text ([components/shared/FileUpload.tsx], lines 54-57) *)

Module FileUpload.

(** The [Load Text] button: what [onTextLoaded] is called with, if it is
    called. *)
Definition loadText (pasteText : string) : option string :=
  if truthy (trim pasteText) then Some (trim pasteText) else None.

End FileUpload.

(** ** [epicGroups] of [StoriesPage] ([pages/StoriesPage.tsx], lines 57-63) *)

Module StoriesPage.

(** [UserStory], the fields the page computes with. *)
Record UserStory : Type := { id : string; epic : string; title : string }.

(** What an object literal inherits from [Object.prototype]: reading one
    of these keys from [{}] gives a value that is neither null nor
    undefined. *)
Definition inherited : list string :=
  ["constructor"; "__proto__"; "hasOwnProperty"; "isPrototypeOf";
   "propertyIsEnumerable"; "toLocaleString"; "toString"; "valueOf";
   "__defineGetter__"; "__defineSetter__"; "__lookupGetter__"; "__lookupSetter__"].

(** The groups: for each key the stories pushed under it, in order; a
    key the object does not have is one with no stories (a key is only
    ever created to push a story under it). *)
Definition groups_t : Type := string -> list UserStory.

Definition no_groups : groups_t := fun _ => [].

(** [(groups[key] ??= []).push(story)] for a key that is not inherited. *)
Definition push (key : string) (story : UserStory) (groups : groups_t) : groups_t :=
  fun k => if String.eqb k key then (groups key ++ [story])%list else groups k.

(** The [for] loop over the stories, from the groups made so far.
    [(groups[story.epic] ??= []).push(story)] throws a [TypeError] when
    the key is inherited: what it reads has no [push].  [None] is that
    exception. *)
Fixpoint group_stories (stories : list UserStory) (groups : groups_t) : option groups_t :=
  match stories with
  | [] => Some groups
  | story :: rest =>
      if existsb (String.eqb (epic story)) inherited then None
      else group_stories rest (push (epic story) story groups)
  end.

Definition epicGroups (stories : list UserStory) : option groups_t :=
  group_stories stories no_groups.

End StoriesPage.

(** * Properties *)

(** Case analysis on every test the goal branches on. *)
Ltac case_ifs :=
  repeat match goal with |- context [if ?b then _ else _] => destruct b end.

(** ** The monad *)

Lemma bind_Return {W A B} (m : js W A) (k : A -> js W B) (w w' : W) (a : A) :
  m w = Return a w' -> bind m k w = k a w'.
Proof. intros E. unfold bind. now rewrite E. Qed.

Lemma final_bind_ret {W A B} (m : js W A) (b : B) (w : W) :
  final (bind m (fun _ => ret b) w) = final (m w).
Proof. unfold bind, ret. now destruct (m w). Qed.

(** ** Strings *)

Lemma truthy_true (s : string) : s <> "" -> truthy s = true.
Proof. destruct s; [congruence | reflexivity]. Qed.

Lemma event_line (e : string) :
  startsWith "event: " ("event: " ++ e) = true /\ slice 7 ("event: " ++ e) = e.
Proof. split; [cbn; now destruct e | reflexivity]. Qed.

Lemma data_line (d : string) :
  startsWith "event: " ("data: " ++ d) = false
  /\ startsWith "data: " ("data: " ++ d) = true
  /\ slice 6 ("data: " ++ d) = d.
Proof. repeat split; cbn; now destruct d. Qed.

(** ** The frame parser *)

Section Parser.

Context {W : Type}.
Variable JSON_parse : string -> option json.
Variable onEvent : SSEEvent -> js W unit.

(** A payload [JSON.parse] rejects is handed over once, wrapped. *)
Lemma emit_undecodable (p : pending) (w : W) :
  JSON_parse (currentData p) = None ->
  emit JSON_parse onEvent p w
  = onEvent {| event := currentEvent p; data := raw_wrapper (currentData p) |} w.
Proof. intros E. unfold emit, try_catch, throw. now rewrite E. Qed.

(** The three lines of a frame, whatever was pending before them. *)
Lemma for_lines_frame (e d : string) (rest : list string) (p : pending) (w : W) :
  trim e <> "" -> d <> "" ->
  for_lines JSON_parse onEvent (("event: " ++ e) :: ("data: " ++ d) :: "" :: rest) p w
  = (emit JSON_parse onEvent {| currentEvent := trim e; currentData := d |} ;;
     for_lines JSON_parse onEvent rest no_pending) w.
Proof.
  intros He Hd.
  destruct (event_line e) as [E1 E2]. destruct (data_line d) as (D1 & D2 & D3).
  cbn [for_lines]. rewrite E1, E2, D1, D2, D3.
  cbn [startsWith String.prefix String.eqb currentEvent currentData andb].
  now rewrite (truthy_true _ He), (truthy_true _ Hd).
Qed.

(** With a callback that returns, the [for] loop returns. *)
Lemma for_lines_returns (lines : list string) (p : pending) (w : W) :
  (forall ev w0, exists w1, onEvent ev w0 = Return tt w1) ->
  exists p' w', for_lines JSON_parse onEvent lines p w = Return p' w'.
Proof.
  intros R. revert p w. induction lines as [|line rest IH]; intros p w.
  - now exists p, w.
  - cbn [for_lines].
    destruct (startsWith "event: " line); [apply IH|].
    destruct (startsWith "data: " line); [apply IH|].
    destruct (_ && _ && _); [|apply IH].
    assert (exists w1, emit JSON_parse onEvent p w = Return tt w1) as [w1 E].
    { unfold emit, try_catch, throw.
      destruct (JSON_parse (currentData p)) as [d|].
      - destruct (R {| event := currentEvent p; data := d |} w) as [w1 ->].
        now exists w1.
      - apply R. }
    rewrite (bind_Return _ _ _ _ _ E). apply IH.
Qed.

End Parser.

(** The recording callback returns, so the [for] loop over it returns;
    it records events only, after what was recorded before. *)
Lemma for_lines_record (JSON_parse : string -> option json)
      (lines : list string) (p : pending) :
  exists p' t',
    Forall (fun c => exists ev, c = CalledEvent ev) t'
    /\ forall t0, for_lines JSON_parse record_event lines p t0 = Return p' (t0 ++ t')%list.
Proof.
  revert p. induction lines as [|line rest IH]; intros p.
  - exists p, []. split; [constructor|]. intros t0; cbn; unfold ret. now rewrite app_nil_r.
  - cbn [for_lines].
    destruct (startsWith "event: " line); [apply IH|].
    destruct (startsWith "data: " line); [apply IH|].
    destruct (_ && _ && _); [|apply IH].
    destruct (IH no_pending) as (p' & t' & F & H).
    assert (exists ev, forall t0, emit JSON_parse record_event p t0
                                  = Return tt (t0 ++ [CalledEvent ev])%list) as [ev Hev].
    { unfold emit, try_catch, throw.
      destruct (JSON_parse (currentData p)); eexists; intros t0; reflexivity. }
    exists p', (CalledEvent ev :: t'). split.
    + constructor; [now exists ev | exact F].
    + intros t0. rewrite (bind_Return _ _ _ _ _ (Hev t0)), H.
      now rewrite <- app_assoc.
Qed.

(** So does the [while] loop, up to the end of the stream. *)
Lemma read_loop_record (JSON_parse : string -> option json)
      (chunks : list string) (fin : option js_error) (buffer : string) :
  exists t',
    Forall (fun c => exists ev, c = CalledEvent ev) t'
    /\ forall t0, read_loop JSON_parse record_event chunks fin buffer t0
                  = match fin with
                    | None => Return tt (t0 ++ t')%list
                    | Some e => Throw e (t0 ++ t')%list
                    end.
Proof.
  revert buffer. induction chunks as [|value more IH]; intros buffer.
  - exists []. split; [constructor|]. intros t0. rewrite app_nil_r.
    destruct fin; reflexivity.
  - cbn [read_loop]. unfold on_read.
    destruct (for_lines_record JSON_parse
                (removelast (split_nl (buffer ++ value))) no_pending)
      as (p' & t1 & F1 & H1).
    destruct (IH (List.last (split_nl (buffer ++ value)) "")) as (t2 & F2 & H2).
    exists (t1 ++ t2)%list. split; [now apply Forall_app|].
    intros t0. unfold bind at 1 2. rewrite H1. unfold ret. rewrite H2.
    rewrite <- app_assoc. reflexivity.
Qed.

Lemma string_app_assoc (a b c : string) : (a ++ b) ++ c = a ++ (b ++ c).
Proof. induction a as [|x a IH]; cbn; [reflexivity | now rewrite IH]. Qed.

Lemma split_nl_line (s r : string) :
  one_line s = true -> split_nl (s ++ nl ++ r) = s :: split_nl r.
Proof.
  induction s as [|c s IH]; intros H; cbn in *.
  - reflexivity.
  - apply andb_prop in H as [Hc Hs]. apply negb_true_iff in Hc.
    rewrite Hc, (IH Hs). reflexivity.
Qed.

Lemma split_nl_frame (ev payload : string) :
  one_line ev = true -> one_line payload = true ->
  split_nl (frame ev payload) = ["event: " ++ ev; "data: " ++ payload; ""; ""].
Proof.
  intros He Hp. unfold frame. cbn [unlines].
  rewrite split_nl_line by exact He.
  rewrite split_nl_line by exact Hp.
  reflexivity.
Qed.

Lemma split_nl_not_nil (s : string) : split_nl s <> [].
Proof.
  destruct s as [|c s]; cbn; [discriminate|].
  destruct (Ascii.eqb c LF); [discriminate|].
  destruct (split_nl s); discriminate.
Qed.

(** The text of a frame, followed by more text, splits into the three
    lines of the frame and the lines of what follows. *)
Lemma split_nl_frame_more (ev payload more : string) :
  one_line ev = true -> one_line payload = true ->
  split_nl (frame ev payload ++ more)
  = ("event: " ++ ev) :: ("data: " ++ payload) :: "" :: split_nl more.
Proof.
  intros He Hp. unfold frame. cbn [unlines].
  assert (one_line ("event: " ++ ev) = true) as Ha by exact He.
  assert (one_line ("data: " ++ payload) = true) as Hb by exact Hp.
  generalize dependent ("event: " ++ ev). intros a Ha.
  generalize dependent ("data: " ++ payload). intros b Hb.
  rewrite !string_app_assoc.
  rewrite (split_nl_line a) by exact Ha.
  rewrite (split_nl_line b) by exact Hb.
  reflexivity.
Qed.

(** What the parser emits for a body that comes in one chunk. *)
Lemma parsed_events_one_chunk (JSON_parse : string -> option json) (text : string) :
  parsed_events JSON_parse [text]
  = final (for_lines JSON_parse record_event
                     (removelast (split_nl text)) no_pending []).
Proof.
  unfold parsed_events. cbn [read_loop]. unfold on_read, bind.
  change ("" ++ text) with text.
  destruct (for_lines_record JSON_parse (removelast (split_nl text)) no_pending)
    as (p' & t' & _ & H).
  now rewrite H.
Qed.

(** Within one read (sse.ts, lines 42-57): the three lines of a frame
    whose event name and payload are not empty and whose payload
    [JSON.parse] rejects make the loop call the event callback exactly
    once, with the event name and the wrapper [{ raw: payload }], and go
    on with the lines that follow with nothing pending; with the
    recording callback, one call is recorded and the loop has not
    thrown at that point. *)
Theorem malformed_frame_recovery
        (JSON_parse : string -> option json) (e d : string)
        (rest : list string) (p : pending) :
  trim e <> "" -> d <> "" -> JSON_parse d = None ->
  (forall (W : Type) (onEvent : SSEEvent -> js W unit) (w : W),
      for_lines JSON_parse onEvent
                (("event: " ++ e) :: ("data: " ++ d) :: "" :: rest) p w
      = (onEvent {| event := trim e; data := raw_wrapper d |} ;;
         for_lines JSON_parse onEvent rest no_pending) w)
  /\ (forall t : list call,
         for_lines JSON_parse record_event
                   (("event: " ++ e) :: ("data: " ++ d) :: "" :: rest) p t
         = for_lines JSON_parse record_event rest no_pending
                     (t ++ [CalledEvent {| event := trim e; data := raw_wrapper d |}])%list)
  /\ (one_line e = true -> one_line d = true ->
      forall more : string,
        parsed_events JSON_parse [frame e d ++ more]
        = CalledEvent {| event := trim e; data := raw_wrapper d |}
            :: parsed_events JSON_parse [more]).
Proof.
  intros He Hd Hp.
  assert (forall (W : Type) (onEvent : SSEEvent -> js W unit) (w : W),
      for_lines JSON_parse onEvent
                (("event: " ++ e) :: ("data: " ++ d) :: "" :: rest) p w
      = (onEvent {| event := trim e; data := raw_wrapper d |} ;;
         for_lines JSON_parse onEvent rest no_pending) w) as G.
  { intros W onEvent w. rewrite (for_lines_frame _ _ _ _ _ _ _ He Hd).
    unfold bind. now rewrite emit_undecodable. }
  split; [exact G|]. split; [intros t; now rewrite G|].
  intros Le Ld more. rewrite !parsed_events_one_chunk.
  rewrite split_nl_frame_more by assumption.
  assert (forall x y z (l : list string),
             l <> [] -> removelast (x :: y :: z :: l) = x :: y :: z :: removelast l) as R
      by (intros x y z [|u l] N; [congruence | reflexivity]).
  rewrite R by apply split_nl_not_nil.
  clear G R.
  destruct (for_lines_record JSON_parse (removelast (split_nl more)) no_pending)
    as (p' & t' & _ & H).
  pose proof (for_lines_frame JSON_parse record_event e d
                (removelast (split_nl more)) no_pending [] He Hd) as K.
  rewrite K. unfold bind. rewrite emit_undecodable by exact Hp.
  cbn. now rewrite !H.
Qed.

Lemma malformed_frame_recovery_witness :
  for_lines scenario_parse record_event
            ["event: complete"; "data: {oops"; "";
             "event: progress"; "data: " ++ payload_progress; ""] no_pending []
  = Return no_pending
      [CalledEvent {| event := "complete"; data := raw_wrapper "{oops" |};
       CalledEvent {| event := "progress"; data := JObj [("message", JStr "step1")] |}].
Proof.
  destruct (malformed_frame_recovery scenario_parse "complete" "{oops"
              ["event: progress"; "data: " ++ payload_progress; ""] no_pending)
    as (_ & H & _); [discriminate | discriminate | reflexivity |].
  change ("event: " ++ "complete") with "event: complete" in H.
  change ("data: " ++ "{oops") with "data: {oops" in H.
  rewrite (H []). reflexivity.
Defined.

(** A frame that comes in one read is emitted. *)
Lemma frame_in_one_read_is_emitted
      (JSON_parse : string -> option json) (e d : string) (j : json) :
  one_line e = true -> one_line d = true ->
  trim e <> "" -> d <> "" -> JSON_parse d = Some j ->
  parsed_events JSON_parse [frame e d] = [CalledEvent {| event := trim e; data := j |}].
Proof.
  intros Le Ld He Hd Hj. rewrite parsed_events_one_chunk.
  rewrite split_nl_frame by assumption. cbn [removelast].
  rewrite for_lines_frame by assumption.
  unfold bind, emit, try_catch; cbn [currentData currentEvent]. rewrite Hj.
  reflexivity.
Qed.

(** The same frame is lost when the read ends after its [event: ] line:
    the next turn of the [while] loop starts with no event name. *)
Lemma frame_in_two_reads_is_lost
      (JSON_parse : string -> option json) (e d : string) :
  one_line e = true -> one_line d = true ->
  parsed_events JSON_parse [("event: " ++ e) ++ nl; ("data: " ++ d) ++ nl ++ nl] = []
  /\ String.concat "" [("event: " ++ e) ++ nl; ("data: " ++ d) ++ nl ++ nl] = frame e d.
Proof.
  intros Le Ld. split.
  - unfold parsed_events. cbn [read_loop]. unfold on_read.
    change ("" ++ ?x) with x.
    replace (("event: " ++ e) ++ nl) with (("event: " ++ e) ++ nl ++ "")
      by reflexivity.
    rewrite (split_nl_line ("event: " ++ e) "") by exact Le.
    cbn [split_nl removelast List.last].
    unfold bind at 1 2. cbn [for_lines].
    destruct (event_line e) as [-> _]. cbn [ret].
    change ("" ++ ?x) with x.
    rewrite (split_nl_line ("data: " ++ d) nl) by exact Ld.
    change (split_nl nl) with ["" ; ""]. cbn [removelast List.last].
    unfold bind. cbn [for_lines].
    destruct (data_line d) as (-> & -> & _). reflexivity.
  - unfold frame. cbn [String.concat unlines].
    rewrite !string_app_assoc. reflexivity.
Qed.

(** C6. Malformed-frame recovery fails for a frame that comes in two
    reads (sse.ts, lines 31-57).  A complete frame whose payload
    [JSON.parse] rejects is handed over once, wrapped as
    [{ raw: payload }], when its text comes in one read; the same text
    gives no event at all when the read ends after the [event: ] line,
    because [currentEvent] and [currentData] start empty in every turn
    of the [while] loop: the defect of C1. *)
Theorem malformed_frame_split_across_reads_is_lost
        (JSON_parse : string -> option json) (e d : string) :
  one_line e = true -> one_line d = true ->
  trim e <> "" -> d <> "" -> JSON_parse d = None ->
  let whole := [frame e d] in
  let split := [("event: " ++ e) ++ nl; ("data: " ++ d) ++ nl ++ nl] in
  String.concat "" split = String.concat "" whole
  /\ parsed_events JSON_parse whole
     = [CalledEvent {| event := trim e; data := JObj [("raw", JStr d)] |}]
  /\ parsed_events JSON_parse split = [].
Proof.
  intros Le Ld He Hd Hp whole split.
  destruct (frame_in_two_reads_is_lost JSON_parse e d Le Ld) as [L C].
  split; [exact C|]. split; [|exact L].
  unfold whole. rewrite parsed_events_one_chunk.
  rewrite split_nl_frame by assumption. cbn [removelast].
  rewrite for_lines_frame by assumption.
  unfold bind. rewrite emit_undecodable by exact Hp. reflexivity.
Qed.

Lemma malformed_frame_split_across_reads_is_lost_witness :
  parsed_events scenario_parse [frame "complete" "{oops"]
  = [CalledEvent {| event := "complete"; data := JObj [("raw", JStr "{oops")] |}]
  /\ parsed_events scenario_parse ["event: complete" ++ nl; "data: {oops" ++ nl ++ nl]
     = [].
Proof.
  destruct (malformed_frame_split_across_reads_is_lost scenario_parse "complete" "{oops")
    as (_ & H1 & H2); try reflexivity; try discriminate.
  split; [exact H1 | exact H2].
Defined.

(** C1. Chunk-boundary independence fails (sse.ts, lines 28-57):
    [currentEvent] and [currentData] are declared inside the [while]
    loop, so a frame whose lines arrive in two reads is lost.  The same
    text gives one event when it is read in one chunk and none when the
    [event: ] line and the rest arrive in two chunks. *)
Theorem frame_split_across_reads_is_lost :
  let whole := [frame "complete" "{}"] in
  let split := ["event: complete" ++ nl; "data: {}" ++ nl ++ nl] in
  String.concat "" split = String.concat "" whole
  /\ parsed_events scenario_parse whole
     = [CalledEvent {| event := "complete"; data := JObj [] |}]
  /\ parsed_events scenario_parse split = [].
Proof. repeat split; reflexivity. Qed.

(** ** The promise chain *)

Section Chain.

Context {W : Type}.
Variable JSON_parse : string -> option json.
Variable onEvent : SSEEvent -> js W unit.
Variable onError : js_error -> js W unit.

(** An error that is not an [AbortError] goes to the error callback. *)
Lemma catch_handler_reports (e : js_error) (w : W) :
  String.eqb (name e) "AbortError" = false ->
  catch_handler (Some onError) e w = onError e w.
Proof. intros E. unfold catch_handler. now rewrite E. Qed.

(** An [AbortError] goes nowhere. *)
Lemma catch_handler_abort (e : js_error) (o : option (js_error -> js W unit)) (w : W) :
  String.eqb (name e) "AbortError" = true ->
  catch_handler o e w = Return tt w.
Proof. intros E. unfold catch_handler. now rewrite E. Qed.

(** A response that is not [ok]: the chain is the reading of the body
    and then the [catch] callback; the event callback has no part in
    it. *)
Lemma connectSSE_not_ok (r : response) (w : W) :
  ok r = false ->
  connectSSE JSON_parse onEvent (Some onError) (Fulfilled r) w
  = match read_all r with
    | inl text => onError (Error ("HTTP " ++ of_nat (status r) ++ ": " ++ text)) w
    | inr e => catch_handler (Some onError) e w
    end.
Proof.
  intros Hok. unfold connectSSE, try_catch, then_handler, response_text.
  rewrite Hok. cbn. destruct (read_all r); reflexivity.
Qed.

End Chain.

(** C7, as stated, fails: a response with status 503 whose body cannot
    be read to its end makes the error callback receive the error of the
    read, which has neither the status nor the body in its message; and
    when the request is aborted while the body is read, the error
    callback is not called at all. *)
Lemma unread_error_body_reports_no_status :
  let broken := {| status := 503;
                   body := Some {| reads := ["Service "];
                                   ending := Some (Error "network down") |} |} in
  let aborted := {| status := 503;
                    body := Some {| reads := ["Service "];
                                    ending := Some AbortError |} |} in
  ok broken = false
  /\ calls scenario_parse (Fulfilled broken) = [CalledError (Error "network down")]
  /\ (forall text : string, Error "network down" <> http_error 503 text)
  /\ ok aborted = false
  /\ calls scenario_parse (Fulfilled aborted) = [].
Proof. cbn. repeat split. intros text. discriminate. Qed.

(** C7, amended (sse.ts, lines 18-22 and 60-64).  For every response
    whose status is not a success status, [connectSSE] reads the body as
    text and never calls the event callback: the body is not parsed as
    frames.  When the body is read to its end, the error callback is
    called exactly once, with the message [HTTP <status>: <body>]; when
    the read fails, it is called exactly once with the error of the
    read; when that error is the [AbortError] of a cancellation, no
    callback is called. *)
Theorem non_success_status_is_terminal_error
        (JSON_parse : string -> option json) (r : response) :
  ok r = false ->
  (forall (W : Type) (onEvent : SSEEvent -> js W unit)
          (onError : js_error -> js W unit) (w : W),
      connectSSE JSON_parse onEvent (Some onError) (Fulfilled r) w
      = match read_all r with
        | inl text =>
            onError {| name := "Error";
                       message := "HTTP " ++ of_nat (status r) ++ ": " ++ text |} w
        | inr e => if String.eqb (name e) "AbortError" then Return tt w
                   else onError e w
        end)
  /\ calls JSON_parse (Fulfilled r)
     = match read_all r with
       | inl text =>
           [CalledError {| name := "Error";
                           message := "HTTP " ++ of_nat (status r) ++ ": " ++ text |}]
       | inr e => if String.eqb (name e) "AbortError" then [] else [CalledError e]
       end
  /\ Forall (fun c => exists err, c = CalledError err) (calls JSON_parse (Fulfilled r)).
Proof.
  intros Hok.
  assert (forall (W : Type) (onEvent : SSEEvent -> js W unit)
                 (onError : js_error -> js W unit) (w : W),
      connectSSE JSON_parse onEvent (Some onError) (Fulfilled r) w
      = match read_all r with
        | inl text =>
            onError {| name := "Error";
                       message := "HTTP " ++ of_nat (status r) ++ ": " ++ text |} w
        | inr e => if String.eqb (name e) "AbortError" then Return tt w
                   else onError e w
        end) as G.
  { intros W onEvent onError w. rewrite connectSSE_not_ok by exact Hok.
    destruct (read_all r) as [text|e]; [reflexivity|].
    unfold catch_handler. now destruct (String.eqb (name e) "AbortError"). }
  assert (calls JSON_parse (Fulfilled r)
          = match read_all r with
            | inl text =>
                [CalledError {| name := "Error";
                                message := "HTTP " ++ of_nat (status r) ++ ": " ++ text |}]
            | inr e => if String.eqb (name e) "AbortError" then [] else [CalledError e]
            end) as C.
  { unfold calls. rewrite G.
    destruct (read_all r) as [text|e]; [reflexivity|].
    now destruct (String.eqb (name e) "AbortError"). }
  split; [exact G|]. split; [exact C|]. rewrite C.
  destruct (read_all r) as [text|e]; [repeat constructor; eauto|].
  destruct (String.eqb (name e) "AbortError"); repeat constructor; eauto.
Qed.

Lemma non_success_status_is_terminal_error_witness :
  calls scenario_parse
        (Fulfilled {| status := 503;
                      body := Some {| reads := ["event: complete" ++ nl;
                                                "data: {}" ++ nl ++ nl];
                                      ending := None |} |})
  = [CalledError {| name := "Error";
                    message := "HTTP 503: event: complete" ++ nl ++ "data: {}" ++ nl ++ nl |}].
Proof.
  destruct (non_success_status_is_terminal_error scenario_parse
              {| status := 503;
                 body := Some {| reads := ["event: complete" ++ nl;
                                           "data: {}" ++ nl ++ nl];
                                 ending := None |} |})
    as (_ & H & _); [reflexivity | exact H].
Defined.

(** ** The hook *)

Section HookFacts.

Import UseSSE.
Context {T P : Type}.
Variable JSON_parse : string -> option json.
Variable as_T : json -> T.

(** Aborting calls no callback: what the callbacks act on is untouched. *)
Lemma abort_current (k : nat) (c : client T P) : current (abort k c) = current c.
Proof.
  unfold abort. destruct (requests c !! k) as [[ph o]|]; [|reflexivity].
  destruct ph; reflexivity.
Qed.

Lemma abort_controllerRef (k : nat) (c : client T P) :
  controllerRef (abort k c) = controllerRef c.
Proof.
  unfold abort. destruct (requests c !! k) as [[ph o]|]; [|reflexivity].
  destruct ph; reflexivity.
Qed.

Lemma abort_length (k : nat) (c : client T P) :
  List.length (requests (abort k c)) = List.length (requests c).
Proof.
  unfold abort. destruct (requests c !! k) as [[ph o]|]; [|reflexivity].
  destruct ph; cbn; now rewrite ?length_insert.
Qed.

(** After [abort], the request is settled. *)
Lemma abort_settles (k : nat) (c : client T P) :
  (k < List.length (requests c))%nat -> settled k (abort k c) = true.
Proof.
  intros Hk. unfold settled, abort.
  destruct (requests c !! k) as [[ph o]|] eqn:E.
  - destruct ph; cbn; rewrite ?list_lookup_insert_eq by exact Hk;
      try reflexivity. now rewrite E.
  - apply lookup_ge_None in E. lia.
Qed.

(** A step of a chain leaves the other requests as they are. *)
Lemma advance_lookup_ne (k j : nat) (o : option (options T P)) (m : js (world T P) phase)
      (c : client T P) :
  k <> j -> requests (advance k o m c) !! j = requests c !! j.
Proof. intros N. unfold advance; cbn. now apply list_lookup_insert_ne. Qed.

(** A settled request receives nothing. *)
Lemma deliver_settled (k : nat) (d : delivery) (c : client T P) :
  settled k c = true -> deliver JSON_parse as_T k d c = c.
Proof.
  unfold settled, deliver.
  destruct (requests c !! k) as [[ph o]|]; [|reflexivity].
  destruct ph; try discriminate. reflexivity.
Qed.

(** Once settled, always settled. *)
Lemma abort_keeps_settled (k j : nat) (c : client T P) :
  settled k c = true -> settled k (abort j c) = true.
Proof.
  intros S. unfold abort.
  destruct (requests c !! j) as [[ph o]|] eqn:E; [|exact S].
  destruct ph; try exact S; unfold settled in *;
    (destruct (decide (j = k)) as [->|N];
     [rewrite E in S; discriminate | now rewrite advance_lookup_ne]).
Qed.

Lemma deliver_keeps_settled (k j : nat) (d : delivery) (c : client T P) :
  settled k c = true -> settled k (deliver JSON_parse as_T j d c) = true.
Proof.
  intros S. destruct (decide (j = k)) as [->|N].
  - now rewrite deliver_settled.
  - unfold deliver. destruct (requests c !! j) as [[ph o]|]; [|exact S].
    unfold settled in *.
    destruct ph, d; try exact S;
      case_ifs;
      now rewrite advance_lookup_ne.
Qed.

Lemma start_keeps_settled (k : nat) (o : option (options T P)) (c : client T P) :
  settled k c = true -> settled k (start o c) = true.
Proof.
  intros S. unfold start.
  set (c1 := match controllerRef c with Some j => abort j c | None => c end).
  assert (settled k c1 = true) as S1.
  { subst c1. destruct (controllerRef c); [now apply abort_keeps_settled | exact S]. }
  unfold settled in *; cbn.
  destruct (requests c1 !! k) as [r|] eqn:E; [|discriminate].
  now rewrite (lookup_app_l_Some _ _ _ _ E).
Qed.

Lemma cancel_keeps_settled (k : nat) (c : client T P) :
  settled k c = true -> settled k (cancel c) = true.
Proof.
  intros S. unfold cancel, settled; cbn.
  destruct (controllerRef c); [now apply abort_keeps_settled | exact S].
Qed.

(** What [cancel] leaves in the stream state. *)
Lemma cancel_state (c : client T P) :
  state (current (cancel c))
  = {| loading := false;
       progress := JStr "";
       progressDetail := progressDetail (state (current c));
       result := result (state (current c));
       error := error (state (current c)) |}.
Proof.
  unfold cancel; cbn.
  destruct (controllerRef c); now rewrite ?abort_current.
Qed.

End HookFacts.

(** C9. Round-start state reset (useSSE.ts, lines 32-49): whatever the
    state was, [start] leaves the stream state at exactly
    [{ loading: true, progress: "Starting...", progressDetail: null,
    result: null, error: null }], with the new request still waiting for
    its response (nothing of the new stream has been read) and the hook
    holding its controller; no result and no error of an earlier round
    is left. *)
Theorem start_resets_stream_state
        (T P : Type) (o : option (UseSSE.options T P)) (c : UseSSE.client T P) :
  let c' := UseSSE.start o c in
  UseSSE.state (UseSSE.current c')
  = {| UseSSE.loading := true;
       UseSSE.progress := JStr "Starting...";
       UseSSE.progressDetail := None;
       UseSSE.result := None;
       UseSSE.error := None |}
  /\ (exists k, UseSSE.controllerRef c' = Some k
                /\ UseSSE.requests c' !! k
                   = Some {| UseSSE.stage := UseSSE.Connecting; UseSSE.opts := o |}).
Proof.
  cbn. split; [reflexivity|].
  eexists; split; [reflexivity|].
  rewrite lookup_app_r by lia. now rewrite Nat.sub_diag.
Qed.

(** C10. Frame effect of [cancel] (useSSE.ts, lines 87-90): [cancel] sets
    [loading] to false and [progress] to the empty string and leaves
    [result], [progressDetail] and [error] as they were. *)
Theorem cancel_frame (T P : Type) (c : UseSSE.client T P) :
  UseSSE.state (UseSSE.current (UseSSE.cancel c))
  = {| UseSSE.loading := false;
       UseSSE.progress := JStr "";
       UseSSE.progressDetail := UseSSE.progressDetail (UseSSE.state (UseSSE.current c));
       UseSSE.result := UseSSE.result (UseSSE.state (UseSSE.current c));
       UseSSE.error := UseSSE.error (UseSSE.state (UseSSE.current c)) |}.
Proof. apply cancel_state. Qed.

(** ** The completion block of the page *)

Section PageFacts.

Import IteratePage.

Lemma on_render_keeps (r : IterationResult.t) (p : page) :
  commits r p = false -> on_render (Some r) p = p.
Proof. intros E. cbn. now rewrite E. Qed.

(** When the test of line 73 passes there is a [result.result]. *)
Lemma commits_has_result (r : IterationResult.t) (p : page) :
  commits r p = true -> exists a, IterationResult.result r = Some a.
Proof.
  unfold commits, declared_iteration.
  destruct (IterationResult.result r) as [a|]; [now exists a|].
  intros H. apply Z.ltb_lt in H. lia.
Qed.

Lemma declared_iteration_number (r : IterationResult.t) (a : AnalysisResult) :
  IterationResult.result r = Some a -> declared_iteration r = iteration_number a.
Proof.
  intros E. unfold declared_iteration. rewrite E.
  destruct (Z.eqb_spec (iteration_number a) 0); congruence.
Qed.

Lemma on_render_commits (r : IterationResult.t) (a : AnalysisResult) (p : page) :
  commits r p = true -> IterationResult.result r = Some a ->
  on_render (Some r) p
  = {| threshold := threshold p;
       history := (history p ++ [{| iteration := iteration_number a;
                                    score := overall_score a |}])%list;
       isReady := IterationResult.is_ready r;
       comparison := IterationResult.comparison r |}.
Proof. intros E R. cbn. now rewrite E, R. Qed.

(** A result whose number is the next index is committed by one run of
    the render function and left alone by the runs that follow. *)
Lemma on_render_next_index (r : IterationResult.t) (a : AnalysisResult) (p : page) :
  IterationResult.result r = Some a ->
  iteration_number a = (Z.of_nat (List.length (history p)) + 1)%Z ->
  history (on_render (Some r) p)
  = (history p ++ [{| iteration := iteration_number a; score := overall_score a |}])%list
  /\ on_render (Some r) (on_render (Some r) p) = on_render (Some r) p.
Proof.
  intros R N.
  assert (commits r p = true) as C.
  { unfold commits. rewrite (declared_iteration_number _ _ R). apply Z.ltb_lt. lia. }
  rewrite (on_render_commits _ _ _ C R). split; [reflexivity|].
  apply on_render_keeps. unfold commits; cbn.
  rewrite (declared_iteration_number _ _ R), length_app; cbn.
  apply Z.ltb_ge. lia.
Qed.

End PageFacts.

(** C2, as stated, fails: with one entry in the history, a result that
    declares iteration 3 (not 2) is appended by the render function, and
    appended again by the next run. *)
Lemma iteration_three_after_one_round_is_appended :
  let p := {| IteratePage.threshold := 80;
              IteratePage.history := [{| IteratePage.iteration := 1; IteratePage.score := 55 |}];
              IteratePage.isReady := false;
              IteratePage.comparison := None |} in
  let r := {| IterationResult.result := Some {| overall_score := 70; iteration_number := 3 |};
              IterationResult.comparison := None;
              IterationResult.is_ready := false |} in
  iteration_number {| overall_score := 70; iteration_number := 3 |}
  <> (Z.of_nat (List.length (IteratePage.history p)) + 1)%Z
  /\ IteratePage.history (IteratePage.on_render (Some r) p) <> IteratePage.history p
  /\ IteratePage.history (IteratePage.on_render (Some r) p)
     = [{| IteratePage.iteration := 1; IteratePage.score := 55 |};
        {| IteratePage.iteration := 3; IteratePage.score := 70 |}]
  /\ List.length (IteratePage.history (IteratePage.rerender 2 (Some r) p)) = 3%nat.
Proof. cbn. repeat split; discriminate. Qed.

(** C2, amended (IteratePage.tsx, lines 71-81). The test is
    [history.length < iteration_number]: a result whose declared number
    is at most the length of the history (a missing number counts as 0)
    leaves the whole page state as it is, and a result is appended, by one
    run of the render function, exactly when its declared number is
    greater than the length of the history. *)
Theorem history_guard_is_strictly_less (r : IterationResult.t) (p : IteratePage.page) :
  ((IteratePage.declared_iteration r <= Z.of_nat (List.length (IteratePage.history p)))%Z ->
   IteratePage.on_render (Some r) p = p)
  /\ ((Z.of_nat (List.length (IteratePage.history p)) < IteratePage.declared_iteration r)%Z ->
      exists a, IterationResult.result r = Some a
                /\ IteratePage.history (IteratePage.on_render (Some r) p)
                   = (IteratePage.history p
                      ++ [{| IteratePage.iteration := iteration_number a;
                             IteratePage.score := overall_score a |}])%list)
  /\ (IteratePage.history (IteratePage.on_render (Some r) p) <> IteratePage.history p ->
      (Z.of_nat (List.length (IteratePage.history p)) < IteratePage.declared_iteration r)%Z).
Proof.
  assert ((IteratePage.declared_iteration r
           <= Z.of_nat (List.length (IteratePage.history p)))%Z ->
          IteratePage.on_render (Some r) p = p) as K.
  { intros H. apply on_render_keeps. unfold IteratePage.commits. apply Z.ltb_ge. lia. }
  split; [exact K|]. split.
  - intros H.
    assert (IteratePage.commits r p = true) as C
        by (unfold IteratePage.commits; apply Z.ltb_lt; lia).
    destruct (commits_has_result _ _ C) as [a R]. exists a. split; [exact R|].
    now rewrite (on_render_commits _ _ _ C R).
  - intros H.
    destruct (Z.lt_ge_cases (Z.of_nat (List.length (IteratePage.history p)))
                            (IteratePage.declared_iteration r)) as [L|G]; [exact L|].
    rewrite K in H by lia. congruence.
Qed.

Lemma history_guard_is_strictly_less_witness :
  let p := {| IteratePage.threshold := 80;
              IteratePage.history := [{| IteratePage.iteration := 1; IteratePage.score := 55 |};
                                      {| IteratePage.iteration := 2; IteratePage.score := 78 |}];
              IteratePage.isReady := false;
              IteratePage.comparison := None |} in
  let r := {| IterationResult.result := Some {| overall_score := 78; iteration_number := 2 |};
              IterationResult.comparison := None;
              IterationResult.is_ready := false |} in
  IteratePage.on_render (Some r) p = p.
Proof.
  intros p r. apply (history_guard_is_strictly_less r p). cbn. lia.
Defined.

(** C4, as stated, fails, both ways: with the target score 80, a first
    round that scores 55 and whose payload says [is_ready: true] leaves
    [isReady] true, and a first round that scores 82 and whose payload
    says [is_ready: false] leaves it false; the page does not compare
    the score with the threshold. *)
Lemma readiness_ignores_threshold :
  (IteratePage.isReady
     (IteratePage.on_render
        (Some {| IterationResult.result := Some {| overall_score := 55; iteration_number := 1 |};
                 IterationResult.comparison := None;
                 IterationResult.is_ready := true |})
        {| IteratePage.threshold := 80; IteratePage.history := [];
           IteratePage.isReady := false; IteratePage.comparison := None |})
   = true
   /\ ~ (80 <= 55)%Q)
  /\ (IteratePage.isReady
        (IteratePage.on_render
           (Some {| IterationResult.result := Some {| overall_score := 82; iteration_number := 1 |};
                    IterationResult.comparison := None;
                    IterationResult.is_ready := false |})
           {| IteratePage.threshold := 80; IteratePage.history := [];
              IteratePage.isReady := false; IteratePage.comparison := None |})
      = false
      /\ (80 <= 82)%Q).
Proof.
  split; split; try reflexivity.
  - intros H. now apply Qle_bool_iff in H.
  - now apply Qle_bool_iff.
Qed.

(** C4, amended (IteratePage.tsx, line 79). When a run of the render
    function commits a round, [isReady] becomes the [is_ready] flag of the
    round's payload, whatever the score and the threshold are, and the
    threshold is not changed; otherwise [isReady] stays as it was.  So
    [isReady] is true exactly when the latest score has reached the
    threshold if and only if the service computed its flag that way. *)
Theorem readiness_is_the_payload_flag (r : IterationResult.t) (p : IteratePage.page) :
  IteratePage.isReady (IteratePage.on_render (Some r) p)
  = (if IteratePage.commits r p then IterationResult.is_ready r else IteratePage.isReady p)
  /\ IteratePage.threshold (IteratePage.on_render (Some r) p) = IteratePage.threshold p
  /\ (forall a, IteratePage.commits r p = true ->
                IterationResult.result r = Some a ->
                ((IteratePage.isReady (IteratePage.on_render (Some r) p) = true
                  <-> (IteratePage.threshold p <= overall_score a)%Q)
                 <-> IterationResult.is_ready r
                     = Qle_bool (IteratePage.threshold p) (overall_score a))).
Proof.
  destruct (IteratePage.commits r p) eqn:C.
  - destruct (commits_has_result _ _ C) as [a R].
    rewrite (on_render_commits _ _ _ C R); cbn.
    split; [reflexivity|]. split; [reflexivity|].
    intros a0 _ R0. rewrite R in R0. injection R0 as <-.
    split.
    + intros [H1 H2].
      destruct (IterationResult.is_ready r);
        destruct (Qle_bool (IteratePage.threshold p) (overall_score a)) eqn:Q;
        try reflexivity.
      * apply Qle_bool_iff in H1; [congruence | reflexivity].
      * apply Qle_bool_iff in Q. now apply H2 in Q.
    + intros F. rewrite F. apply Qle_bool_iff.
  - rewrite (on_render_keeps _ _ C).
    split; [reflexivity|]. split; [reflexivity | discriminate].
Qed.

Lemma readiness_is_the_payload_flag_witness :
  IteratePage.isReady
    (IteratePage.on_render
       (Some {| IterationResult.result := Some {| overall_score := 82; iteration_number := 3 |};
                IterationResult.comparison := None;
                IterationResult.is_ready := true |})
       {| IteratePage.threshold := 80;
          IteratePage.history := [{| IteratePage.iteration := 1; IteratePage.score := 55 |};
                                  {| IteratePage.iteration := 2; IteratePage.score := 78 |}];
          IteratePage.isReady := false; IteratePage.comparison := None |}) = true
  <-> (80 <= 82)%Q.
Proof.
  destruct (readiness_is_the_payload_flag
           {| IterationResult.result := Some {| overall_score := 82; iteration_number := 3 |};
              IterationResult.comparison := None;
              IterationResult.is_ready := true |}
           {| IteratePage.threshold := 80;
              IteratePage.history := [{| IteratePage.iteration := 1; IteratePage.score := 55 |};
                                      {| IteratePage.iteration := 2; IteratePage.score := 78 |}];
              IteratePage.isReady := false; IteratePage.comparison := None |})
    as (_ & _ & H).
  apply (H {| overall_score := 82; iteration_number := 3 |}); reflexivity.
Defined.

(** C8, as stated, fails: a first round whose comparison names the
    iterations 5 and 9 is committed, and that comparison is stored. *)
Lemma mismatched_comparison_is_stored :
  let c := {| previous_iteration := 5; current_iteration := 9;
              previous_score := 10; current_score := 20; score_delta := 10;
              improved_dimensions := []; regressed_dimensions := [];
              resolved_issues := []; new_issues := [] |} in
  let p' := IteratePage.on_render
              (Some {| IterationResult.result := Some {| overall_score := 55;
                                                         iteration_number := 1 |};
                       IterationResult.comparison := Some c;
                       IterationResult.is_ready := false |})
              {| IteratePage.threshold := 80; IteratePage.history := [];
                 IteratePage.isReady := false; IteratePage.comparison := None |} in
  IteratePage.history p' = [{| IteratePage.iteration := 1; IteratePage.score := 55 |}]
  /\ IteratePage.comparison p' = Some c
  /\ current_iteration c <> Z.of_nat (List.length (IteratePage.history p'))
  /\ previous_iteration c <> (Z.of_nat (List.length (IteratePage.history p')) - 1)%Z.
Proof. cbn. repeat split; discriminate. Qed.

(** C8, amended (IteratePage.tsx, line 80). When a run of the render
    function commits a round, the history gets the round's entry and the
    page stores the comparison of the payload as it came (none when the
    payload has none), without looking at its iteration numbers;
    otherwise the stored comparison stays as it was. *)
Theorem comparison_is_stored_unchecked (r : IterationResult.t) (p : IteratePage.page) :
  IteratePage.comparison (IteratePage.on_render (Some r) p)
  = (if IteratePage.commits r p then IterationResult.comparison r
     else IteratePage.comparison p)
  /\ (forall a, IteratePage.commits r p = true ->
                IterationResult.result r = Some a ->
                IteratePage.history (IteratePage.on_render (Some r) p)
                = (IteratePage.history p
                   ++ [{| IteratePage.iteration := iteration_number a;
                          IteratePage.score := overall_score a |}])%list).
Proof.
  destruct (IteratePage.commits r p) eqn:C.
  - destruct (commits_has_result _ _ C) as [a R].
    rewrite (on_render_commits _ _ _ C R); cbn. split; [reflexivity|].
    intros a0 _ R0. rewrite R in R0. now injection R0 as <-.
  - rewrite (on_render_keeps _ _ C). split; [reflexivity | discriminate].
Qed.

Lemma comparison_is_stored_unchecked_witness :
  IteratePage.history
    (IteratePage.on_render
       (Some {| IterationResult.result := Some {| overall_score := 78; iteration_number := 2 |};
                IterationResult.comparison := None;
                IterationResult.is_ready := false |})
       {| IteratePage.threshold := 80;
          IteratePage.history := [{| IteratePage.iteration := 1; IteratePage.score := 55 |}];
          IteratePage.isReady := false; IteratePage.comparison := None |})
  = [{| IteratePage.iteration := 1; IteratePage.score := 55 |};
     {| IteratePage.iteration := 2; IteratePage.score := 78 |}].
Proof.
  destruct (comparison_is_stored_unchecked
              {| IterationResult.result := Some {| overall_score := 78; iteration_number := 2 |};
                 IterationResult.comparison := None;
                 IterationResult.is_ready := false |}
              {| IteratePage.threshold := 80;
                 IteratePage.history := [{| IteratePage.iteration := 1; IteratePage.score := 55 |}];
                 IteratePage.isReady := false; IteratePage.comparison := None |})
    as [_ H].
  apply (H {| overall_score := 78; iteration_number := 2 |}); reflexivity.
Defined.

(** ** The hook and the network *)

Section HookReads.

Import UseSSE.
Context {T P : Type}.
Variable JSON_parse : string -> option json.
Variable as_T : json -> T.

(** The error callback returns. *)
Lemma on_error_returns (e : js_error) (w : world T P) :
  exists w', catch_handler (Some on_error) e w = Return tt w'.
Proof.
  unfold catch_handler, on_error, setState, ret.
  destruct (negb _); eexists; reflexivity.
Qed.

(** A [complete] frame read in one chunk, with nothing buffered, sets the
    terminal state. *)
Lemma on_read_complete_frame (o : option (options T P)) (payload : string) (d : json)
      (w : world T P) :
  one_line payload = true -> payload <> "" -> JSON_parse payload = Some d ->
  on_read JSON_parse (on_event as_T o) "" (frame "complete" payload) w
  = Return ""
      {| state := {| loading := false; progress := JStr ""; progressDetail := None;
                     result := Some (match o with
                                     | Some {| extractResult := Some f |} =>
                                         f {| event := "complete"; data := d |}
                                     | _ => as_T d
                                     end);
                     error := None |};
         observer := observer w;
         render_error := render_error w |}.
Proof.
  intros Hl Hn Hd. unfold on_read.
  change ("" ++ frame "complete" payload) with (frame "complete" payload).
  rewrite split_nl_frame by (exact Hl || reflexivity).
  cbn [List.last List.removelast].
  unfold bind at 1.
  rewrite (for_lines_frame JSON_parse (on_event as_T o) "complete" payload [] no_pending w)
    by (exact Hn || discriminate).
  unfold bind, emit, try_catch; cbn [currentData currentEvent for_lines].
  rewrite Hd. reflexivity.
Qed.

Lemma advance_length (k : nat) (o : option (options T P))
      (m : js (world T P) phase) (c : client T P) :
  List.length (requests (advance k o m c)) = List.length (requests c).
Proof. unfold advance; cbn. apply length_insert. Qed.

Lemma deliver_controllerRef (k : nat) (d : delivery) (c : client T P) :
  controllerRef (deliver JSON_parse as_T k d c) = controllerRef c.
Proof.
  unfold deliver. destruct (requests c !! k) as [[ph o]|]; [|reflexivity].
  destruct ph, d; try reflexivity;
    case_ifs;
    reflexivity.
Qed.

Lemma deliver_length (k : nat) (d : delivery) (c : client T P) :
  List.length (requests (deliver JSON_parse as_T k d c)) = List.length (requests c).
Proof.
  unfold deliver. destruct (requests c !! k) as [[ph o]|]; [|reflexivity].
  destruct ph, d; try reflexivity;
    case_ifs;
    apply advance_length.
Qed.

(** *** The two readings of [connectSSE] agree

    Delivering, one by one, what the network does to a request that has
    just been opened leaves the callbacks' state where the promise chain
    as a whole leaves it. *)

Lemma deliver_all_settled (k : nat) (ds : list delivery) (c : client T P) :
  settled k c = true ->
  fold_left (fun c d => deliver JSON_parse as_T k d c) ds c = c.
Proof.
  intros S. induction ds as [|d ds IH]; [reflexivity|].
  cbn [fold_left]. now rewrite deliver_settled.
Qed.

Lemma deliver_reads_agree (k : nat) (o : option (options T P))
      (chunks : list string) (fin : option js_error) (buffer : string) (c : client T P) :
  requests c !! k = Some {| stage := Reading buffer; opts := o |} ->
  current (fold_left (fun c d => deliver JSON_parse as_T k d c)
                     (List.map ChunkRead chunks
                      ++ [match fin with None => ReadDone | Some e => Failed e end])%list
                     c)
  = final (try_catch (read_loop JSON_parse (on_event as_T o) chunks fin buffer)
                     (catch_handler (Some on_error)) (current c)).
Proof.
  revert buffer c. induction chunks as [|value more IH]; intros buffer c Hk.
  - cbn. unfold deliver. rewrite Hk. destruct fin as [e|]; cbn [advance current].
    + unfold try_catch at 1, throw at 1. cbn. apply final_bind_ret.
    + reflexivity.
  - pose proof (lookup_lt_Some _ _ _ Hk) as Lk.
    cbn [List.map app fold_left]. cbn [read_loop].
    destruct (on_read JSON_parse (on_event as_T o) buffer value (current c))
      as [b' w'|e w'] eqn:R.
    + rewrite IH with (buffer := b').
      * unfold deliver. rewrite Hk. cbn [advance current].
        unfold try_catch at 2. rewrite (bind_Return _ _ _ _ _ R). cbn [ret final].
        unfold try_catch. now rewrite (bind_Return _ _ _ _ _ R).
      * unfold deliver. rewrite Hk. cbn [advance requests].
        unfold try_catch. rewrite (bind_Return _ _ _ _ _ R). cbn [ret].
        now apply list_lookup_insert_eq.
    + destruct (on_error_returns e w') as [w'' E].
      assert (deliver JSON_parse as_T k (ChunkRead value) c
              = {| current := w''; controllerRef := controllerRef c;
                   requests := <[k := {| stage := Settled; opts := o |}]> (requests c) |})
        as D.
      { unfold deliver. rewrite Hk. unfold advance, try_catch, bind.
        rewrite R. unfold bind. rewrite E. reflexivity. }
      rewrite D. rewrite deliver_all_settled.
      * unfold try_catch, bind. rewrite R. cbn [current]. now rewrite E.
      * unfold settled; cbn. now rewrite list_lookup_insert_eq.
Qed.

Lemma deliveries_agree (net : fetch_result) (k : nat) (o : option (options T P))
        (c : client T P) :
  requests c !! k = Some {| stage := Connecting; opts := o |} ->
  current (fold_left (fun c d => deliver JSON_parse as_T k d c) (deliveries net) c)
  = final (connectSSE JSON_parse (on_event as_T o) (Some on_error) net (current c)).
Proof.
  intros Hk. pose proof (lookup_lt_Some _ _ _ Hk) as Lk.
  destruct net as [r|e]; cbn [deliveries fold_left connectSSE].
  - unfold deliver at 2. rewrite Hk. unfold then_handler, response_text, ok.
    destruct (ok_status (status r)); cbn [negb].
    + destruct (body r) as [st|].
      * rewrite deliver_reads_agree with (buffer := "") (o := o);
          [reflexivity | cbn; now apply list_lookup_insert_eq].
      * cbn. first [reflexivity | apply final_bind_ret].
    + cbn [fold_left]. unfold deliver.
      cbn [advance requests ret try_catch].
      rewrite list_lookup_insert_eq by exact Lk.
      destruct (read_all r) as [text|e]; cbn;
        first [reflexivity | apply final_bind_ret].
  - unfold deliver. rewrite Hk. cbn. first [reflexivity | apply final_bind_ret].
Qed.

(** [start] settles the request whose controller the hook held. *)
Lemma start_settles_current (o : option (options T P)) (c : client T P) (k : nat) :
  controllerRef c = Some k -> (k < List.length (requests c))%nat ->
  settled k (start o c) = true.
Proof.
  intros Hc Hk. pose proof (abort_settles k c Hk) as S.
  unfold start. rewrite Hc. unfold settled in *; cbn.
  destruct (requests (abort k c) !! k) as [r|] eqn:E; [|discriminate].
  now rewrite (lookup_app_l_Some _ _ _ _ E).
Qed.

(** [cancel] settles it as well. *)
Lemma cancel_settles_current (c : client T P) (k : nat) :
  controllerRef c = Some k -> (k < List.length (requests c))%nat ->
  settled k (cancel c) = true.
Proof.
  intros Hc Hk. unfold cancel. rewrite Hc. unfold settled; cbn.
  apply (abort_settles k c Hk).
Qed.

(** The hook only ever holds a controller of its own. *)
Lemma start_holds_own (o : option (options T P)) (c : client T P) :
  holds_own_controller (start o c).
Proof.
  intros k. unfold start; cbn. intros [= <-]. rewrite length_app; cbn. lia.
Qed.

Lemma cancel_holds_own (c : client T P) :
  holds_own_controller c -> holds_own_controller (cancel c).
Proof.
  intros H k. unfold cancel; cbn.
  destruct (controllerRef c) as [j|] eqn:E.
  - rewrite abort_controllerRef, abort_length. rewrite E. intros [= <-]. now apply H.
  - rewrite E. discriminate.
Qed.

Lemma deliver_holds_own (k : nat) (d : delivery) (c : client T P) :
  holds_own_controller c -> holds_own_controller (deliver JSON_parse as_T k d c).
Proof.
  intros H j. rewrite deliver_controllerRef, deliver_length. apply H.
Qed.

(** *** Where a result can come from *)

(** An event that is not [complete] leaves the result alone, whether the
    callback returns or throws. *)
Lemma on_event_keeps_result (o : option (options T P)) (ev : SSEEvent) (w : world T P) :
  String.eqb (event ev) "complete" = false ->
  result (state (final (on_event as_T o ev w))) = result (state w).
Proof.
  intros N. unfold on_event. rewrite N.
  unfold setState, call_onProgress, on_page, bind, ret.
  destruct o as [[[f|] x]|]; case_ifs; cbn;
    repeat match goal with
           | |- context [match read ?k ?d with _ => _ end] => destruct (read k d)
           | |- context [match ?f ?e ?p with _ => _ end] => destruct (f e p)
           end; reflexivity.
Qed.

Lemma emit_keeps_result (o : option (options T P)) (p : pending) (w : world T P) :
  String.eqb (currentEvent p) "complete" = false ->
  result (state (final (emit JSON_parse (on_event as_T o) p w))) = result (state w).
Proof.
  intros N. unfold emit, try_catch, throw.
  destruct (JSON_parse (currentData p)) as [d|].
  - pose proof (on_event_keeps_result o {| event := currentEvent p; data := d |} w N) as K.
    destruct (on_event as_T o {| event := currentEvent p; data := d |} w)
      as [u w1|e w1]; [exact K|].
    cbn [final] in K. rewrite <- K. now apply on_event_keeps_result.
  - now apply on_event_keeps_result.
Qed.

(** Lines among which no frame is a [complete] one leave the result
    alone, even if the loop is left by an exception. *)
Lemma for_lines_keeps_result (o : option (options T P)) (lines : list string)
      (p : pending) (w : world T P) :
  existsb is_complete (final (for_lines JSON_parse record_event lines p [])) = false ->
  result (state (final (for_lines JSON_parse (on_event as_T o) lines p w)))
  = result (state w).
Proof.
  revert p w. induction lines as [|line rest IH]; intros p w H; [reflexivity|].
  cbn [for_lines] in *.
  destruct (startsWith "event: " line); [now apply IH|].
  destruct (startsWith "data: " line); [now apply IH|].
  destruct (_ && _ && _); [|now apply IH].
  destruct (for_lines_record JSON_parse rest no_pending) as (p' & t' & _ & R).
  assert (exists ev, event ev = currentEvent p
                     /\ emit JSON_parse record_event p [] = Return tt [CalledEvent ev])
    as (ev & Ev & E).
  { unfold emit, try_catch, throw.
    destruct (JSON_parse (currentData p)); eexists; (split; [|reflexivity]);
      reflexivity. }
  unfold bind in H. rewrite E, R in H. cbn [final app existsb is_complete] in H.
  apply orb_false_elim in H as [Hc Ht]. rewrite Ev in Hc.
  pose proof (emit_keeps_result o p w Hc) as K.
  unfold bind. destruct (emit JSON_parse (on_event as_T o) p w) as [u w1|e w1];
    cbn [final] in K; [|exact K].
  rewrite <- K. apply IH. now rewrite (R []).
Qed.

(** What the chain does with an exception keeps the result. *)
Lemma catch_keeps_result (e : js_error) (w : world T P) :
  result (state (final (catch_handler (Some on_error) e w))) = result (state w).
Proof.
  unfold catch_handler, on_error, setState, ret. now destruct (negb _).
Qed.

Lemma advance_throw_keeps_result (k : nat) (o : option (options T P)) (e : js_error)
      (c : client T P) :
  result (state (current (advance k o (throw e) c))) = result (state (current c)).
Proof.
  unfold advance, try_catch, throw; cbn [current].
  rewrite final_bind_ret. apply catch_keeps_result.
Qed.

(** The result the hook holds changes only when a read of a request that
    is still open hands over a [complete] event. *)
Lemma deliver_changes_result (k : nat) (d : delivery) (c : client T P) :
  result (state (current (deliver JSON_parse as_T k d c))) <> result (state (current c)) ->
  exists (value buffer : string) (o : option (options T P)),
    d = ChunkRead value
    /\ requests c !! k = Some {| stage := Reading buffer; opts := o |}
    /\ emits_complete JSON_parse buffer value = true.
Proof.
  unfold deliver. destruct (requests c !! k) as [[ph o]|] eqn:E; [|congruence].
  destruct ph, d; try congruence;
    try (rewrite advance_throw_keeps_result; congruence);
    try (case_ifs; rewrite ?advance_throw_keeps_result; cbn; congruence).
  intros H. exists value, buffer, o. split; [reflexivity|]. split; [reflexivity|].
  destruct (emits_complete JSON_parse buffer value) eqn:C; [reflexivity|].
  exfalso. apply H. clear H.
  unfold emits_complete, on_read in C. rewrite final_bind_ret in C.
  pose proof (for_lines_keeps_result o _ no_pending (current c) C) as K.
  unfold advance, try_catch, on_read, bind; cbn [current].
  destruct (for_lines JSON_parse (on_event as_T o)
              (removelast (split_nl (buffer ++ value))) no_pending (current c))
    as [p' w'|e w']; cbn [final ret] in *; [exact K|].
  rewrite <- K.
  pose proof (catch_keeps_result e w') as J.
  destruct (catch_handler (Some on_error) e w'); exact J.
Qed.

End HookReads.

(** ** The page and its hook together *)

Section AppFacts.

Import UseSSE IteratePage.
Variable JSON_parse : string -> option json.
Variable cast : json -> IterationResult.t.

Local Notation "'step'" := (IteratePage.step JSON_parse cast).
Local Notation "'run'" := (IteratePage.run JSON_parse cast).
Local Notation "'analysis_result' s" := (result (state (current (analysis s))))
  (at level 10, s at level 9).

Lemma run_app (tr1 tr2 : list action) (s : app) :
  run (tr1 ++ tr2)%list s = run tr2 (run tr1 s).
Proof. apply fold_left_app. Qed.

Lemma step_keeps_settled (k : nat) (a : action) (s : app) :
  settled k (analysis s) = true -> settled k (analysis (step a s)) = true.
Proof.
  intros S. destruct a; cbn.
  - apply start_keeps_settled. exact S.
  - now apply cancel_keeps_settled.
  - now apply deliver_keeps_settled.
  - exact S.
Qed.

Lemma step_network_settled (k : nat) (d : delivery) (s : app) :
  settled k (analysis s) = true -> step (Network k d) s = s.
Proof. intros S. destruct s as [h v]; cbn in *. now rewrite deliver_settled. Qed.

(** Deliveries to a settled request can be left out of any run. *)
Lemma run_skip_settled (k : nat) (tr : list action) (s : app) :
  settled k (analysis s) = true ->
  run tr s = run (List.filter (fun a => negb (from_request k a)) tr) s.
Proof.
  revert s. induction tr as [|a tr IH]; intros s S; [reflexivity|].
  cbn [List.filter]. destruct (from_request k a) eqn:F; cbn [negb].
  - destruct a; try discriminate. apply Nat.eqb_eq in F as <-.
    change (run (Network k d :: tr) s) with (run tr (step (Network k d) s)).
    rewrite step_network_settled by exact S. now apply IH.
  - change (run (a :: tr) s) with (run tr (step a s)).
    change (run (a :: ?l) s) with (run l (step a s)).
    apply IH. now apply step_keeps_settled.
Qed.

(** With the request settled and the page up to date, what is left over
    from the request changes nothing. *)
Lemma run_leftover (k : nat) (tr : list action) (s : app) :
  settled k (analysis s) = true ->
  on_render (analysis_result s) (view s) = view s ->
  forallb (leftover k) tr = true ->
  run tr s = s.
Proof.
  intros S U. induction tr as [|a tr IH]; intros L; [reflexivity|].
  cbn in L. apply andb_prop in L as [La Ltr].
  change (run (a :: tr) s) with (run tr (step a s)).
  assert (step a s = s) as ->; [|now apply IH].
  destruct a; try discriminate.
  - apply Nat.eqb_eq in La as <-. now apply step_network_settled.
  - destruct s as [h v]; cbn in *.
    destruct (render_error (current h)); [reflexivity | now rewrite U].
Qed.

(** What [runAnalysis] leaves behind when the hook held the controller
    of request [k]. *)
Lemma runAnalysis_supersedes (s : app) (k : nat) :
  holds_own_controller (analysis s) ->
  controllerRef (analysis s) = Some k ->
  settled k (analysis (step RunAnalysis s)) = true
  /\ controllerRef (analysis (step RunAnalysis s))
     = Some (List.length (requests (analysis s)))
  /\ requests (analysis (step RunAnalysis s)) !! List.length (requests (analysis s))
     = Some {| stage := Connecting; opts := Some (analysis_options cast) |}
  /\ state (current (analysis (step RunAnalysis s))) = starting
  /\ view (step RunAnalysis s) = view s.
Proof.
  intros H Hc. pose proof (H k Hc) as Hk. cbn [IteratePage.step runAnalysis analysis view].
  split; [|split; [|split; [|split]]]; try reflexivity.
  - apply start_settles_current; assumption.
  - unfold start; cbn. rewrite Hc, abort_length. reflexivity.
  - unfold start; cbn. rewrite Hc.
    rewrite lookup_app_r by (rewrite abort_length; cbn; lia).
    rewrite abort_length; cbn. now rewrite Nat.sub_diag.
Qed.

(** A success status with a body moves the request into the read loop. *)
Lemma step_responded_ok (s : app) (k : nat) (o : option (options IterationResult.t steps)) :
  requests (analysis s) !! k = Some {| stage := Connecting; opts := o |} ->
  step (Network k (Responded 200 true)) s
  = {| analysis := {| current := current (analysis s);
                      controllerRef := controllerRef (analysis s);
                      requests := <[k := {| stage := Reading ""; opts := o |}]>
                                    (requests (analysis s)) |};
       view := view s |}.
Proof. intros E. cbn. unfold deliver. rewrite E. reflexivity. Qed.

(** A [complete] frame read in one chunk puts the typed payload in
    [analysis.result]. *)
Lemma step_complete_frame (s : app) (k : nat) (payload : string) (d : json) :
  requests (analysis s) !! k
  = Some {| stage := Reading ""; opts := Some (analysis_options cast) |} ->
  one_line payload = true -> payload <> "" -> JSON_parse payload = Some d ->
  step (Network k (ChunkRead (frame "complete" payload))) s
  = {| analysis :=
         {| current := {| state := {| loading := false; progress := JStr "";
                                      progressDetail := None;
                                      result := Some (cast d);
                                      error := None |};
                          observer := observer (current (analysis s));
                          render_error := render_error (current (analysis s)) |};
            controllerRef := controllerRef (analysis s);
            requests := <[k := {| stage := Reading "";
                                  opts := Some (analysis_options cast) |}]>
                          (requests (analysis s)) |};
       view := view s |}.
Proof.
  intros E Hl Hn Hd. cbn. unfold deliver. rewrite E.
  unfold advance, try_catch, bind.
  rewrite (on_read_complete_frame JSON_parse cast _ payload d _ Hl Hn Hd).
  reflexivity.
Qed.

(** What the hook holds changes only when a round is started, or when a
    read of a request that is still open hands over a [complete]
    event. *)
Lemma step_changes_result (a : action) (s : app) :
  analysis_result (step a s) <> analysis_result s ->
  a = RunAnalysis
  \/ exists (k : nat) (value buffer : string),
       a = Network k (ChunkRead value)
       /\ settled k (analysis s) = false
       /\ (exists o, requests (analysis s) !! k
                     = Some {| stage := Reading buffer; opts := o |})
       /\ emits_complete JSON_parse buffer value = true.
Proof.
  destruct a; cbn [IteratePage.step analysis]; intros H.
  - now left.
  - exfalso. apply H. now rewrite cancel_state.
  - right. apply deliver_changes_result in H as (value & buffer & o & -> & E & C).
    exists k, value, buffer. split; [reflexivity|]. split; [|split; [now exists o | exact C]].
    unfold settled. now rewrite E.
  - congruence.
Qed.

Lemma run_keeps_settled (k : nat) (tr : list action) (s : app) :
  settled k (analysis s) = true -> settled k (analysis (run tr s)) = true.
Proof.
  revert s. induction tr as [|a tr IH]; intros s S; [exact S|].
  change (run (a :: tr) s) with (run tr (step a s)).
  apply IH. now apply step_keeps_settled.
Qed.

(** Every state the page can be in holds a controller of its own. *)
Lemma step_holds_own (a : action) (s : app) :
  holds_own_controller (analysis s) -> holds_own_controller (analysis (step a s)).
Proof.
  intros H. destruct a; cbn.
  - apply start_holds_own.
  - now apply cancel_holds_own.
  - now apply deliver_holds_own.
  - exact H.
Qed.

Lemma reachable_holds_own (tr : list action) :
  holds_own_controller (analysis (run tr mounted)).
Proof.
  induction tr as [|a tr IH] using rev_ind.
  - intros k; discriminate.
  - rewrite run_app. cbn. now apply step_holds_own.
Qed.

End AppFacts.

Section Rounds.

Import UseSSE IteratePage.
Variable JSON_parse : string -> option json.
Variable cast : json -> IterationResult.t.

Local Notation "'step'" := (IteratePage.step JSON_parse cast).
Local Notation "'run'" := (IteratePage.run JSON_parse cast).
Local Notation "'held' s" := (result (state (current (analysis s))))
  (at level 10, s at level 9).

(** While the hook holds no result, or the one result [r] that declares
    the next iteration number, the page state is the one it was, or that
    one with the entry of [r] committed. *)
Lemma one_result_commits_once (r : IterationResult.t) (a : AnalysisResult) (base : page)
      (tr : list action) (s0 : app) :
  IterationResult.result r = Some a ->
  iteration_number a = (Z.of_nat (List.length (history base)) + 1)%Z ->
  Forall (fun s' => held s' = None \/ held s' = Some r) (states JSON_parse cast tr s0) ->
  view s0 = base \/ view s0 = on_render (Some r) base ->
  view (run tr s0) = base \/ view (run tr s0) = on_render (Some r) base.
Proof.
  intros Ha Hi. destruct (on_render_next_index r a base Ha Hi) as [_ N].
  revert s0. induction tr as [|x tr IH]; intros s0 F V; [exact V|].
  cbn [states] in F. apply Forall_cons in F as [F0 F].
  change (run (x :: tr) s0) with (run tr (step x s0)).
  apply IH; [exact F|].
  destruct x; cbn [IteratePage.step view]; try exact V.
  destruct (render_error _); [exact V|].
  destruct F0 as [-> | ->]; [exact V|].
  right. destruct V as [-> | ->]; [reflexivity | exact N].
Qed.

(** Once the entry of [r] is committed, further runs of the render
    function change nothing. *)
Lemma renders_keep (r : IterationResult.t) (a : AnalysisResult) (base : page)
      (n : nat) (s0 : app) :
  IterationResult.result r = Some a ->
  iteration_number a = (Z.of_nat (List.length (history base)) + 1)%Z ->
  held s0 = Some r ->
  view s0 = on_render (Some r) base ->
  view (run (repeat Render n) s0) = on_render (Some r) base.
Proof.
  intros Ha Hi. destruct (on_render_next_index r a base Ha Hi) as [_ N].
  revert s0. induction n as [|n IH]; intros s0 Hr V; [exact V|].
  cbn [repeat]. change (run (Render :: ?l) s0) with (run l (step Render s0)).
  apply IH; cbn [IteratePage.step analysis view]; [exact Hr|].
  destruct (render_error _); [exact V|]. now rewrite Hr, V.
Qed.

End Rounds.

(** C3, as stated, fails: with a first round in flight and an empty
    history, a second round is started whose result declares iteration 2;
    the render function, which runs again after it has set state, commits
    two entries from the second round, not exactly one. *)
Lemma second_round_two_ahead_commits_twice :
  let s := IteratePage.run scenario_parse scenario_cast
             [IteratePage.RunAnalysis;
              IteratePage.Network 0 (UseSSE.Responded 200 true)]
             IteratePage.mounted in
  let s1 := IteratePage.step scenario_parse scenario_cast IteratePage.RunAnalysis s in
  let s2 := IteratePage.run scenario_parse scenario_cast
              [IteratePage.Network 1 (UseSSE.Responded 200 true);
               IteratePage.Network 1
                 (UseSSE.ChunkRead (frame "complete" (payload_round "2" "78")));
               IteratePage.Render;
               IteratePage.Render;
               IteratePage.Render]
              s1 in
  UseSSE.controllerRef (IteratePage.analysis s) = Some 0%nat
  /\ UseSSE.settled 0 (IteratePage.analysis s) = false
  /\ IteratePage.history (IteratePage.view s) = []
  /\ IteratePage.history (IteratePage.view s2)
     = [{| IteratePage.iteration := 2; IteratePage.score := 78 |};
        {| IteratePage.iteration := 2; IteratePage.score := 78 |}]
  /\ List.length (IteratePage.history (IteratePage.view s2))
     <> S (List.length (IteratePage.history (IteratePage.view s))).
Proof. cbn. repeat split; discriminate. Qed.

(** C3, amended (useSSE.ts, lines 23-85; IteratePage.tsx, lines 71-81).
    When [runAnalysis] is called while the hook holds the controller of
    request [k1]:
    - request [k1] is aborted by [start] before the new request [k2] is
      opened, the hook then holds the controller of [k2], and it holds no
      result: one that [k1] had delivered and the page had not rendered
      is dropped;
    - whatever else happens afterwards, the deliveries to [k1] can be
      left out: they change nothing, so the first round contributes no
      entry;
    - from then on, what the hook holds as its result changes only when
      the page starts another round, or when a read of a request other
      than [k1], still open, hands a [complete] event to the event
      callback: progress events, failures and the end of a stream leave
      it alone;
    - whatever happens afterwards (any deliveries, in any chunks, with
      progress events, with runs of the render function in between),
      when all the hook ever holds from then on is one result, which
      declares the next iteration number, and the page is still shown,
      then once the render function has run, and however often it runs
      again, the history has grown by exactly one entry, the one of that
      result.
    A result that declares a later number is committed more than once. *)
Theorem superseded_round_never_commits
        (JSON_parse : string -> option json) (cast : json -> IterationResult.t)
        (s : IteratePage.app) (k1 : nat) :
  UseSSE.holds_own_controller (IteratePage.analysis s) ->
  UseSSE.controllerRef (IteratePage.analysis s) = Some k1 ->
  let s1 := IteratePage.step JSON_parse cast IteratePage.RunAnalysis s in
  let k2 := List.length (UseSSE.requests (IteratePage.analysis s)) in
  let held := fun s' : IteratePage.app =>
                UseSSE.result (UseSSE.state (UseSSE.current (IteratePage.analysis s'))) in
  (UseSSE.settled k1 (IteratePage.analysis s1) = true
   /\ k2 <> k1
   /\ UseSSE.controllerRef (IteratePage.analysis s1) = Some k2
   /\ UseSSE.requests (IteratePage.analysis s1) !! k2
      = Some {| UseSSE.stage := UseSSE.Connecting;
                UseSSE.opts := Some (IteratePage.analysis_options cast) |}
   /\ held s1 = None
   /\ IteratePage.view s1 = IteratePage.view s)
  /\ (forall tr : list IteratePage.action,
         IteratePage.run JSON_parse cast tr s1
         = IteratePage.run JSON_parse cast
             (List.filter (fun a => negb (IteratePage.from_request k1 a)) tr) s1)
  /\ (forall (tr : list IteratePage.action) (a : IteratePage.action),
         let s' := IteratePage.run JSON_parse cast tr s1 in
         held (IteratePage.step JSON_parse cast a s') <> held s' ->
         a = IteratePage.RunAnalysis
         \/ exists (k : nat) (value buffer : string),
              a = IteratePage.Network k (UseSSE.ChunkRead value)
              /\ k <> k1
              /\ (exists o, UseSSE.requests (IteratePage.analysis s') !! k
                            = Some {| UseSSE.stage := UseSSE.Reading buffer;
                                      UseSSE.opts := o |})
              /\ emits_complete JSON_parse buffer value = true)
  /\ (forall (tr : list IteratePage.action)
             (r : IterationResult.t) (a : AnalysisResult),
         Forall (fun s' => held s' = None \/ held s' = Some r)
                (IteratePage.states JSON_parse cast tr s1) ->
         held (IteratePage.run JSON_parse cast tr s1) = Some r ->
         UseSSE.render_error
           (UseSSE.current (IteratePage.analysis (IteratePage.run JSON_parse cast tr s1)))
         = None ->
         IterationResult.result r = Some a ->
         iteration_number a
         = (Z.of_nat (List.length (IteratePage.history (IteratePage.view s))) + 1)%Z ->
         forall n : nat,
           IteratePage.history
             (IteratePage.view
                (IteratePage.run JSON_parse cast
                   (tr ++ repeat IteratePage.Render (S n))%list s1))
           = (IteratePage.history (IteratePage.view s)
              ++ [{| IteratePage.iteration := iteration_number a;
                     IteratePage.score := overall_score a |}])%list).
Proof.
  intros H Hc s1 k2 held.
  destruct (runAnalysis_supersedes JSON_parse cast s k1 H Hc) as (S1 & C1 & Q1 & R1 & V1).
  split; [|split; [|split]].
  - split; [exact S1|]. split; [pose proof (H k1 Hc); subst k2; lia|].
    split; [exact C1|]. split; [exact Q1|]. split; [|exact V1].
    unfold held, s1. now rewrite R1.
  - intros tr. now apply run_skip_settled.
  - intros tr a s' D.
    destruct (step_changes_result JSON_parse cast a s' D)
      as [->|(k & value & buffer & -> & U & Q & E)]; [now left|].
    right. exists k, value, buffer. split; [reflexivity|]. split; [|now split].
    intros ->. unfold s', s1 in U.
    rewrite (run_keeps_settled JSON_parse cast k1 tr _ S1) in U. discriminate.
  - intros tr r a F Hr Hf Ha Hi n.
    destruct (on_render_next_index r a (IteratePage.view s) Ha Hi) as [N1 N2].
    pose proof (one_result_commits_once JSON_parse cast r a (IteratePage.view s)
                  tr s1 Ha Hi F (or_introl V1)) as V.
    rewrite run_app. cbn [repeat].
    change (IteratePage.run JSON_parse cast (IteratePage.Render :: ?l) ?x)
      with (IteratePage.run JSON_parse cast l
              (IteratePage.step JSON_parse cast IteratePage.Render x)).
    rewrite (renders_keep JSON_parse cast r a (IteratePage.view s) n _ Ha Hi);
      [exact N1 | exact Hr |].
    cbn [IteratePage.step IteratePage.view]. rewrite Hf.
    unfold held in Hr. rewrite Hr.
    destruct V as [-> | ->]; [reflexivity | exact N2].
Qed.

Lemma superseded_round_never_commits_witness :
  IteratePage.history
    (IteratePage.view
       (IteratePage.run scenario_parse scenario_cast
          ([IteratePage.Network 0
              (UseSSE.ChunkRead (frame "complete" (payload_round "2" "78")));
            IteratePage.Network 1 (UseSSE.Responded 200 true);
            IteratePage.Render;
            IteratePage.Network 1 (UseSSE.ChunkRead (frame "progress" payload_progress));
            IteratePage.Render;
            IteratePage.Network 1
              (UseSSE.ChunkRead (frame "complete" (payload_round "1" "55")));
            IteratePage.Network 0 UseSSE.ReadDone]
           ++ repeat IteratePage.Render 2)%list
          (IteratePage.step scenario_parse scenario_cast IteratePage.RunAnalysis
             (IteratePage.run scenario_parse scenario_cast
                [IteratePage.RunAnalysis;
                 IteratePage.Network 0 (UseSSE.Responded 200 true)]
                IteratePage.mounted))))
  = [{| IteratePage.iteration := 1; IteratePage.score := 55 |}].
Proof.
  destruct (superseded_round_never_commits scenario_parse scenario_cast
              (IteratePage.run scenario_parse scenario_cast
                 [IteratePage.RunAnalysis;
                  IteratePage.Network 0 (UseSSE.Responded 200 true)]
                 IteratePage.mounted) 0%nat)
    as (_ & _ & _ & H).
  - intros k E. vm_compute in E. injection E as <-. vm_compute. lia.
  - reflexivity.
  - apply (H [IteratePage.Network 0
                (UseSSE.ChunkRead (frame "complete" (payload_round "2" "78")));
              IteratePage.Network 1 (UseSSE.Responded 200 true);
              IteratePage.Render;
              IteratePage.Network 1 (UseSSE.ChunkRead (frame "progress" payload_progress));
              IteratePage.Render;
              IteratePage.Network 1
                (UseSSE.ChunkRead (frame "complete" (payload_round "1" "55")));
              IteratePage.Network 0 UseSSE.ReadDone]
             (scenario_cast (round_json 1 55))
             {| overall_score := 55; iteration_number := 1 |});
      try reflexivity.
    repeat constructor; first [left; reflexivity | right; reflexivity].
Defined.

(** C5. Cancellation is not an error (sse.ts, lines 60-64; useSSE.ts,
    lines 87-90).  An aborted request makes [connectSSE] call the error
    callback never: not when [fetch] rejects with the [AbortError], and
    not when a read does after some chunks; a rejection with any other
    error is reported once.  On the page, when the hook holds the
    controller of request [k], [cancel] settles that request and changes
    neither the page state (so not the history) nor the [error] of the
    stream state; and if the page was up to date, nothing that is left
    over from the request changes anything afterwards. *)
Theorem cancel_is_not_an_error
        (JSON_parse : string -> option json) (cast : json -> IterationResult.t)
        (s : IteratePage.app) (k : nat) :
  UseSSE.holds_own_controller (IteratePage.analysis s) ->
  UseSSE.controllerRef (IteratePage.analysis s) = Some k ->
  let s' := IteratePage.step JSON_parse cast IteratePage.CancelClicked s in
  calls JSON_parse (Rejected AbortError) = []
  /\ (forall (st : nat) (chunks : list string),
         Forall (fun c => exists ev, c = CalledEvent ev)
                (calls JSON_parse
                       (Fulfilled {| status := st;
                                     body := Some {| reads := chunks;
                                                     ending := Some AbortError |} |})))
  /\ (forall e : js_error,
         String.eqb (name e) "AbortError" = false ->
         calls JSON_parse (Rejected e) = [CalledError e])
  /\ UseSSE.settled k (IteratePage.analysis s') = true
  /\ IteratePage.view s' = IteratePage.view s
  /\ UseSSE.error (UseSSE.state (UseSSE.current (IteratePage.analysis s')))
     = UseSSE.error (UseSSE.state (UseSSE.current (IteratePage.analysis s)))
  /\ (forall tr : list IteratePage.action,
         forallb (IteratePage.leftover k) tr = true ->
         IteratePage.on_render
           (UseSSE.result (UseSSE.state (UseSSE.current (IteratePage.analysis s))))
           (IteratePage.view s)
         = IteratePage.view s ->
         IteratePage.run JSON_parse cast tr s' = s').
Proof.
  intros H Hc s'.
  assert (UseSSE.settled k (IteratePage.analysis s') = true) as S
      by (apply cancel_settles_current; [exact Hc | now apply H]).
  pose proof (cancel_state (IteratePage.analysis s)) as F.
  repeat split.
  - intros st chunks. unfold calls, connectSSE, try_catch, then_handler, response_text.
    destruct (ok _); cbn.
    + destruct (read_loop_record JSON_parse chunks (Some AbortError) "") as (t' & Ft & Ht).
      rewrite Ht. cbn. exact Ft.
    + constructor.
  - intros e He. unfold calls, connectSSE, catch_handler. now rewrite He.
  - exact S.
  - subst s'. cbn [IteratePage.step IteratePage.analysis]. now rewrite F.
  - intros tr L U. apply (run_leftover JSON_parse cast k tr s' S); [|exact L].
    subst s'. cbn [IteratePage.step IteratePage.analysis IteratePage.view].
    now rewrite F.
Qed.

Lemma cancel_is_not_an_error_witness :
  let s := IteratePage.run scenario_parse scenario_cast
             [IteratePage.RunAnalysis;
              IteratePage.Network 0 (UseSSE.Responded 200 true);
              IteratePage.Network 0
                (UseSSE.ChunkRead (frame "complete" (payload_round "1" "55")));
              IteratePage.Render;
              IteratePage.Network 0 UseSSE.ReadDone;
              IteratePage.RunAnalysis;
              IteratePage.Network 1 (UseSSE.Responded 200 true)]
             IteratePage.mounted in
  let s' := IteratePage.step scenario_parse scenario_cast IteratePage.CancelClicked s in
  IteratePage.run scenario_parse scenario_cast
    [IteratePage.Network 1 (UseSSE.Failed (Error "network down"));
     IteratePage.Render;
     IteratePage.Network 1
       (UseSSE.ChunkRead (frame "complete" (payload_round "2" "78")));
     IteratePage.Render] s'
  = s'.
Proof.
  intros s s'.
  destruct (cancel_is_not_an_error scenario_parse scenario_cast s 1%nat)
    as (_ & _ & _ & _ & _ & _ & H).
  - intros k E. vm_compute in E. injection E as <-. vm_compute. lia.
  - reflexivity.
  - apply H; reflexivity.
Defined.

(** ** The first round of a session, from the wire to the history *)

Example first_round_end_to_end :
  let s := IteratePage.run scenario_parse scenario_cast
             [IteratePage.RunAnalysis;
              IteratePage.Network 0 (UseSSE.Responded 200 true);
              IteratePage.Network 0 (UseSSE.ChunkRead (frame "progress" payload_progress));
              IteratePage.Network 0
                (UseSSE.ChunkRead (frame "complete" (payload_round "1" "55")));
              IteratePage.Network 0 UseSSE.ReadDone;
              IteratePage.Render]
             IteratePage.mounted in
  UseSSE.loading (UseSSE.state (UseSSE.current (IteratePage.analysis s))) = false
  /\ option_map IterationResult.result
                (UseSSE.result (UseSSE.state (UseSSE.current (IteratePage.analysis s))))
     = Some (Some {| overall_score := 55; iteration_number := 1 |})
  /\ IteratePage.history (IteratePage.view s)
     = [{| IteratePage.iteration := 1; IteratePage.score := 55 |}]
  /\ IteratePage.isReady (IteratePage.view s) = false.
Proof. repeat split. Qed.

(** A [progress] frame whose payload is [null].  The updater of
    useSSE.ts, line 52, throws when React runs it, and [handleProgress]
    throws at IteratePage.tsx, line 34, in the [try] of the parser, which
    calls the event callback again with the wrapped payload; the stream
    goes on, the result of the round arrives, but the render fails and
    the history stays empty. *)
Example null_progress_payload_takes_the_page_down :
  let s := IteratePage.run scenario_parse scenario_cast
             [IteratePage.RunAnalysis;
              IteratePage.Network 0 (UseSSE.Responded 200 true);
              IteratePage.Network 0 (UseSSE.ChunkRead (frame "progress" "null"));
              IteratePage.Network 0
                (UseSSE.ChunkRead (frame "complete" (payload_round "1" "55")));
              IteratePage.Network 0 UseSSE.ReadDone;
              IteratePage.Render]
             IteratePage.mounted in
  parsed_events scenario_parse [frame "progress" "null"]
  = [CalledEvent {| event := "progress"; data := JNull |}]
  /\ UseSSE.render_error (UseSSE.current (IteratePage.analysis s)) = Some TypeError
  /\ UseSSE.error (UseSSE.state (UseSSE.current (IteratePage.analysis s))) = None
  /\ option_map IterationResult.result
                (UseSSE.result (UseSSE.state (UseSSE.current (IteratePage.analysis s))))
     = Some (Some {| overall_score := 55; iteration_number := 1 |})
  /\ IteratePage.history (IteratePage.view s) = [].
Proof. repeat split. Qed.

(** * Further properties *)

(** ** The line buffer (sse.ts, lines 35-37) *)

Lemma removelast_cons_ne {A : Type} (x : A) (l : list A) :
  l <> [] -> removelast (x :: l) = x :: removelast l.
Proof. destruct l; [congruence | reflexivity]. Qed.

Lemma last_cons_ne {A : Type} (x : A) (l : list A) (d : A) :
  l <> [] -> List.last (x :: l) d = List.last l d.
Proof. destruct l; [congruence | reflexivity]. Qed.

Lemma last_app_ne {A : Type} (l l' : list A) (d : A) :
  l' <> [] -> List.last (l ++ l')%list d = List.last l' d.
Proof.
  intros N. induction l as [|x l IH]; [reflexivity|].
  cbn [app]. rewrite last_cons_ne; [exact IH|].
  destruct l; [exact N | discriminate].
Qed.

Lemma split_nl_one_line (s : string) : one_line s = true -> split_nl s = [s].
Proof.
  induction s as [|c s IH]; intros H; cbn in *; [reflexivity|].
  apply andb_prop in H as [Hc Hs]. apply negb_true_iff in Hc.
  now rewrite Hc, (IH Hs).
Qed.

Lemma split_nl_lines (s : string) : Forall (fun l => one_line l = true) (split_nl s).
Proof.
  induction s as [|c s IH]; cbn.
  - now constructor.
  - destruct (Ascii.eqb c LF) eqn:E; [now constructor|].
    destruct (split_nl s) as [|l ls]; [repeat constructor; cbn; now rewrite E|].
    inversion IH; subst. constructor; [cbn; now rewrite E | assumption].
Qed.

Lemma split_nl_last_one_line (s : string) : one_line (List.last (split_nl s) "") = true.
Proof.
  pose proof (split_nl_lines s) as F. pose proof (split_nl_not_nil s) as N.
  induction F as [|l ls Hl F IH]; [congruence|].
  destruct ls; [exact Hl|]. rewrite last_cons_ne by discriminate.
  apply IH. discriminate.
Qed.

(** The lines of a text that comes in two pieces: the complete lines of
    the first piece, then the lines of what the first piece left
    unfinished followed by the second piece. *)
Lemma split_nl_app (a b : string) :
  split_nl (a ++ b)
  = (removelast (split_nl a) ++ split_nl (List.last (split_nl a) "" ++ b))%list.
Proof.
  induction a as [|c a IH]; [reflexivity|].
  cbn [append split_nl]. destruct (Ascii.eqb c LF) eqn:E.
  - rewrite removelast_cons_ne, last_cons_ne by apply split_nl_not_nil.
    now rewrite IH.
  - rewrite IH. pose proof (split_nl_not_nil a) as N.
    destruct (split_nl a) as [|l ls]; [congruence|]. destruct ls as [|l' ls].
    + cbn [removelast List.last app append split_nl]. now rewrite E.
    + rewrite removelast_cons_ne, last_cons_ne by discriminate.
      rewrite (removelast_cons_ne (String c l)), (last_cons_ne (String c l))
        by discriminate.
      reflexivity.
Qed.

Lemma split_nl_two_pieces (a b : string) :
  let buffer := List.last (split_nl a) "" in
  (removelast (split_nl a) ++ removelast (split_nl (buffer ++ b)))%list
  = removelast (split_nl (a ++ b))
  /\ List.last (split_nl (buffer ++ b)) "" = List.last (split_nl (a ++ b)) "".
Proof.
  intros buffer. rewrite (split_nl_app a b). fold buffer.
  rewrite removelast_app by apply split_nl_not_nil.
  now rewrite last_app_ne by apply split_nl_not_nil.
Qed.

(** X1. The carry-over buffer puts lines together again.  When two turns
    of the [while] loop, with the reads [a] and then [b], both come to
    their end, the [for] loop has been run on two lists of lines, one
    for each read, which together are the complete lines of all the
    text so far, and the buffer left is what follows its last line
    feed: no character is lost or doubled between reads, whatever the
    callback does. *)
Theorem line_buffer_reassembles
        (W : Type) (JSON_parse : string -> option json)
        (onEvent : SSEEvent -> js W unit)
        (buffer a b b1 b2 : string) (w w1 w2 : W) :
  on_read JSON_parse onEvent buffer a w = Return b1 w1 ->
  on_read JSON_parse onEvent b1 b w1 = Return b2 w2 ->
  exists (l1 l2 : list string) (p1 p2 : pending),
    for_lines JSON_parse onEvent l1 no_pending w = Return p1 w1
    /\ for_lines JSON_parse onEvent l2 no_pending w1 = Return p2 w2
    /\ (l1 ++ l2)%list = removelast (split_nl ((buffer ++ a) ++ b))
    /\ b2 = List.last (split_nl ((buffer ++ a) ++ b)) "".
Proof.
  unfold on_read, bind, ret. intros H1 H2.
  destruct (for_lines JSON_parse onEvent (removelast (split_nl (buffer ++ a)))
                      no_pending w) as [p1 w1'|] eqn:E1; [|discriminate].
  injection H1 as <- <-.
  destruct (for_lines JSON_parse onEvent
              (removelast (split_nl (List.last (split_nl (buffer ++ a)) "" ++ b)))
              no_pending w1') as [p2 w2'|] eqn:E2; [|discriminate].
  injection H2 as <- <-.
  destruct (split_nl_two_pieces (buffer ++ a) b) as [L B].
  exists (removelast (split_nl (buffer ++ a))),
         (removelast (split_nl (List.last (split_nl (buffer ++ a)) "" ++ b))),
         p1, p2.
  repeat split; assumption.
Qed.

Lemma line_buffer_reassembles_witness :
  "rest" = List.last (split_nl (("" ++ "event: complete" ++ nl ++ "data: {")
                                ++ "}" ++ nl ++ nl ++ "rest")) "".
Proof.
  destruct (line_buffer_reassembles (list call) scenario_parse record_event
              "" ("event: complete" ++ nl ++ "data: {") ("}" ++ nl ++ nl ++ "rest")
              "data: {" "rest" [] [] [])
    as (l1 & l2 & p1 & p2 & _ & _ & _ & H); [reflexivity | reflexivity | exact H].
Defined.

(** ** Reads and frames (sse.ts, lines 31-58) *)

(** X2. A read without a line feed is only buffered: it gives the same as
    if its text had come at the head of the next read, whatever the
    callback does. *)
Theorem read_without_line_feed_merges
        (W : Type) (JSON_parse : string -> option json)
        (onEvent : SSEEvent -> js W unit)
        (a b : string) (more : list string) (fin : option js_error) (w : W) :
  one_line a = true ->
  read_loop JSON_parse onEvent (a :: b :: more) fin "" w
  = read_loop JSON_parse onEvent ((a ++ b) :: more) fin "" w.
Proof.
  intros H. cbn [read_loop]. unfold on_read at 1, bind at 1 2.
  change ("" ++ a) with a. rewrite (split_nl_one_line a H).
  cbn [removelast List.last for_lines ret].
  unfold bind, on_read. reflexivity.
Qed.

Lemma read_without_line_feed_merges_witness :
  parsed_events scenario_parse ["event: comp"; "lete" ++ nl ++ "data: {}" ++ nl ++ nl]
  = [CalledEvent {| event := "complete"; data := JObj [] |}].
Proof.
  unfold parsed_events.
  rewrite (read_without_line_feed_merges (list call) scenario_parse record_event
             "event: comp" ("lete" ++ nl ++ "data: {}" ++ nl ++ nl) [] None []);
    reflexivity.
Defined.

Lemma read_loop_final_any_end (JSON_parse : string -> option json)
      (chunks : list string) (fin : option js_error) (buffer : string) (t : list call) :
  final (read_loop JSON_parse record_event chunks fin buffer t)
  = final (read_loop JSON_parse record_event chunks None buffer t).
Proof.
  destruct (read_loop_record JSON_parse chunks fin buffer) as (t1 & _ & H1).
  revert buffer t t1 H1. induction chunks as [|value more IH]; intros buffer t t1 H1.
  - destruct fin; reflexivity.
  - cbn [read_loop]. unfold bind, on_read.
    destruct (for_lines_record JSON_parse
                (removelast (split_nl (buffer ++ value))) no_pending)
      as (p' & t' & _ & H).
    unfold bind. rewrite H. cbn [ret].
    destruct (read_loop_record JSON_parse more fin
                (List.last (split_nl (buffer ++ value)) "")) as (t2 & _ & H2).
    now apply (IH _ _ t2).
Qed.

Lemma read_loop_trace (JSON_parse : string -> option json)
      (chunks : list string) (buffer : string) (t : list call) :
  final (read_loop JSON_parse record_event chunks None buffer t)
  = (t ++ final (read_loop JSON_parse record_event chunks None buffer []))%list.
Proof.
  destruct (read_loop_record JSON_parse chunks None buffer) as (t' & _ & H).
  now rewrite !H.
Qed.

(** X3. A read that ends with a line feed leaves nothing behind: the
    reads after it are parsed as a stream of their own. *)
Theorem read_ending_at_line_end_is_independent
        (JSON_parse : string -> option json) (c : string) (more : list string) :
  parsed_events JSON_parse ((c ++ nl) :: more)
  = app (parsed_events JSON_parse [c ++ nl]) (parsed_events JSON_parse more).
Proof.
  unfold parsed_events. cbn [read_loop]. unfold bind, on_read.
  change ("" ++ ?x) with x.
  assert (List.last (split_nl (c ++ nl)) "" = "") as L.
  { rewrite (split_nl_app c nl), last_app_ne by apply split_nl_not_nil.
    replace (List.last (split_nl c) "" ++ nl)
      with (List.last (split_nl c) "" ++ nl ++ "") by reflexivity.
    now rewrite split_nl_line by apply split_nl_last_one_line. }
  destruct (for_lines_record JSON_parse (removelast (split_nl (c ++ nl))) no_pending)
    as (p' & t' & _ & H).
  unfold bind. rewrite H, L. cbn [ret final app].
  apply read_loop_trace.
Qed.

(** X4. How the stream of a response with a success status ends.  When
    the body is read to its end the calls are the parsed events and no
    error; when a read rejects with an error that is not an
    [AbortError], they are the events parsed until then and one error
    call; without a body there is only the error [No response body]. *)
Theorem stream_endings (JSON_parse : string -> option json)
        (st : nat) (chunks : list string) (e : js_error) :
  ok_status st = true ->
  String.eqb (name e) "AbortError" = false ->
  calls JSON_parse (Fulfilled {| status := st;
                                 body := Some {| reads := chunks; ending := None |} |})
  = parsed_events JSON_parse chunks
  /\ calls JSON_parse (Fulfilled {| status := st;
                                    body := Some {| reads := chunks; ending := Some e |} |})
     = (parsed_events JSON_parse chunks ++ [CalledError e])%list
  /\ calls JSON_parse (Fulfilled {| status := st; body := None |})
     = [CalledError (Error "No response body")].
Proof.
  intros Hok He.
  unfold calls, connectSSE, try_catch, then_handler, ok, parsed_events; cbn [status body reads ending].
  rewrite Hok; cbn [negb].
  destruct (read_loop_record JSON_parse chunks None "") as (t0 & _ & H0).
  destruct (read_loop_record JSON_parse chunks (Some e) "") as (t1 & _ & H1).
  pose proof (read_loop_final_any_end JSON_parse chunks (Some e) "" []) as Q.
  rewrite H0, H1 in *. cbn [final app] in Q. subst t1.
  split; [reflexivity|]. split; [|reflexivity].
  unfold catch_handler. rewrite He. reflexivity.
Qed.

Lemma stream_endings_witness :
  calls scenario_parse
        (Fulfilled {| status := 200;
                      body := Some {| reads := [frame "complete" "{}"];
                                      ending := Some (Error "connection reset") |} |})
  = [CalledEvent {| event := "complete"; data := JObj [] |};
     CalledError (Error "connection reset")].
Proof.
  destruct (stream_endings scenario_parse 200 [frame "complete" "{}"]
                           (Error "connection reset")) as (_ & H & _);
    [reflexivity | reflexivity |].
  rewrite H. reflexivity.
Defined.

(** X5. A frame that lacks its data line, or its event line, is dropped.
    Over the lines of one read, when no line starts with [data: ], or
    when none starts with [event: ], the callback is not called. *)
Theorem incomplete_frames_are_dropped
        (W : Type) (JSON_parse : string -> option json)
        (onEvent : SSEEvent -> js W unit) (lines : list string) (w : W) :
  Forall (fun l => startsWith "data: " l = false) lines
  \/ Forall (fun l => startsWith "event: " l = false) lines ->
  exists p, for_lines JSON_parse onEvent lines no_pending w = Return p w.
Proof.
  intros [F|F].
  - assert (forall p, currentData p = "" ->
                      exists p', for_lines JSON_parse onEvent lines p w = Return p' w) as G.
    { induction F as [|l ls Hl F IH]; intros p Hp; [now exists p|].
      cbn [for_lines]. rewrite Hl.
      destruct (startsWith "event: " l); [now apply IH|].
      rewrite Hp. cbn [truthy]. rewrite andb_false_r. now apply IH. }
    now apply G.
  - assert (forall p, currentEvent p = "" ->
                      exists p', for_lines JSON_parse onEvent lines p w = Return p' w) as G.
    { induction F as [|l ls Hl F IH]; intros p Hp; [now exists p|].
      cbn [for_lines]. rewrite Hl.
      destruct (startsWith "data: " l); [now apply IH|].
      rewrite Hp. cbn [truthy]. rewrite andb_false_r. cbn [andb]. now apply IH. }
    now apply G.
Qed.

Lemma incomplete_frames_are_dropped_witness :
  exists p, for_lines scenario_parse record_event
                      ["event: complete"; ""; "event: progress"; ""] no_pending []
            = Return p [].
Proof.
  apply (incomplete_frames_are_dropped (list call) scenario_parse record_event
           ["event: complete"; ""; "event: progress"; ""] []).
  left. repeat constructor.
Defined.

(** X6. Only the last [event: ] line and the last [data: ] line before a
    blank line count, in whichever order they come: a [data: ] line may
    come before the [event: ] line, and of two [data: ] lines the first
    is forgotten. *)
Theorem last_event_and_data_lines_win
        (W : Type) (JSON_parse : string -> option json)
        (onEvent : SSEEvent -> js W unit)
        (e d d0 : string) (rest : list string) (p : pending) (w : W) :
  trim e <> "" -> d <> "" ->
  for_lines JSON_parse onEvent
            (("data: " ++ d) :: ("event: " ++ e) :: "" :: rest) p w
  = (emit JSON_parse onEvent {| currentEvent := trim e; currentData := d |} ;;
     for_lines JSON_parse onEvent rest no_pending) w
  /\ for_lines JSON_parse onEvent
               (("event: " ++ e) :: ("data: " ++ d0) :: ("data: " ++ d) :: "" :: rest) p w
     = (emit JSON_parse onEvent {| currentEvent := trim e; currentData := d |} ;;
        for_lines JSON_parse onEvent rest no_pending) w.
Proof.
  intros He Hd.
  destruct (event_line e) as [E1 E2]. destruct (data_line d) as (D1 & D2 & D3).
  destruct (data_line d0) as (D1' & D2' & D3').
  split; cbn [for_lines];
    rewrite ?E1, ?E2, ?D1, ?D2, ?D3, ?D1', ?D2', ?D3';
    cbn [startsWith String.prefix String.eqb currentEvent currentData andb];
    now rewrite (truthy_true _ He), (truthy_true _ Hd).
Qed.

Lemma last_event_and_data_lines_win_witness :
  for_lines scenario_parse record_event
            ["event: complete"; "data: {oops"; "data: {}"; ""] no_pending []
  = Return no_pending [CalledEvent {| event := "complete"; data := JObj [] |}].
Proof.
  destruct (last_event_and_data_lines_win (list call) scenario_parse record_event
              "complete" "{}" "{oops" [] no_pending [])
    as [_ H]; [discriminate | discriminate |].
  change ("event: " ++ "complete") with "event: complete" in H.
  change ("data: " ++ "{oops") with "data: {oops" in H.
  change ("data: " ++ "{}") with "data: {}" in H.
  rewrite H. reflexivity.
Defined.

(** X7. The [try] of lines 48-53 covers the callback as well as
    [JSON.parse].  When the event callback throws on a decoded payload,
    it is called a second time for the same frame, with the payload
    wrapped as [{ raw: payload }], and parsing goes on if that call
    returns. *)
Theorem callback_exception_is_retried_with_raw
        (W : Type) (JSON_parse : string -> option json)
        (onEvent : SSEEvent -> js W unit)
        (e d : string) (j : json) (err : js_error)
        (rest : list string) (p : pending) (w w1 : W) :
  trim e <> "" -> d <> "" -> JSON_parse d = Some j ->
  onEvent {| event := trim e; data := j |} w = Throw err w1 ->
  for_lines JSON_parse onEvent (("event: " ++ e) :: ("data: " ++ d) :: "" :: rest) p w
  = (onEvent {| event := trim e; data := raw_wrapper d |} ;;
     for_lines JSON_parse onEvent rest no_pending) w1.
Proof.
  intros He Hd Hj Ht. rewrite for_lines_frame by assumption.
  unfold bind, emit, try_catch; cbn [currentEvent currentData].
  now rewrite Hj, Ht.
Qed.

Lemma callback_exception_is_retried_with_raw_witness :
  for_lines scenario_parse record_event_or_throw
            ["event: complete"; "data: {}"; ""] no_pending []
  = Return no_pending
      [CalledEvent {| event := "complete"; data := JObj [] |};
       CalledEvent {| event := "complete"; data := raw_wrapper "{}" |}].
Proof.
  pose proof (callback_exception_is_retried_with_raw
                (list call) scenario_parse record_event_or_throw
                "complete" "{}" (JObj []) (Error "empty payload") [] no_pending []
                [CalledEvent {| event := "complete"; data := JObj [] |}]) as H.
  change ("event: " ++ "complete") with "event: complete" in H.
  change ("data: " ++ "{}") with "data: {}" in H.
  rewrite H; try reflexivity; discriminate.
Defined.

(** X8. What follows the last line feed of the last read is never parsed:
    with or without it the same events are emitted. *)
Theorem text_after_last_line_feed_is_ignored
        (JSON_parse : string -> option json)
        (chunks : list string) (c tail : string) :
  one_line tail = true ->
  parsed_events JSON_parse (chunks ++ [(c ++ nl) ++ tail])
  = parsed_events JSON_parse (chunks ++ [c ++ nl]).
Proof.
  intros T.
  assert (forall b, removelast (split_nl (b ++ (c ++ nl) ++ tail))
                    = removelast (split_nl (b ++ c ++ nl))) as R.
  { intros b.
    replace (b ++ (c ++ nl) ++ tail) with ((b ++ c ++ nl) ++ tail)
      by now rewrite !string_app_assoc.
    rewrite (split_nl_app (b ++ c ++ nl) tail).
    assert (List.last (split_nl (b ++ c ++ nl)) "" = "") as L.
    { rewrite <- string_app_assoc.
      rewrite (split_nl_app (b ++ c) nl), last_app_ne by apply split_nl_not_nil.
      replace (List.last (split_nl (b ++ c)) "" ++ nl)
        with (List.last (split_nl (b ++ c)) "" ++ nl ++ "") by reflexivity.
      now rewrite split_nl_line by apply split_nl_last_one_line. }
    rewrite L. change ("" ++ tail) with tail. rewrite (split_nl_one_line tail T).
    now rewrite removelast_last. }
  assert (forall (buffer : string) (t : list call),
             final (read_loop JSON_parse record_event
                              (chunks ++ [(c ++ nl) ++ tail]) None buffer t)
             = final (read_loop JSON_parse record_event
                                (chunks ++ [c ++ nl]) None buffer t)) as G.
  { induction chunks as [|value more IH]; intros buffer t.
    - cbn [app read_loop]. unfold on_read, bind, ret. rewrite R.
      now destruct (for_lines JSON_parse record_event
                              (removelast (split_nl (buffer ++ c ++ nl))) no_pending t).
    - cbn [app read_loop]. unfold bind.
      destruct (on_read JSON_parse record_event buffer value t);
        [apply IH | reflexivity]. }
  apply G.
Qed.

Lemma text_after_last_line_feed_is_ignored_witness :
  parsed_events scenario_parse
                ["event: complete" ++ nl;
                 ("data: {}" ++ nl ++ nl ++ "event: progress" ++ nl)
                   ++ "data: " ++ payload_progress]
  = parsed_events scenario_parse
                  ["event: complete" ++ nl;
                   "data: {}" ++ nl ++ nl ++ "event: progress" ++ nl].
Proof.
  apply (text_after_last_line_feed_is_ignored scenario_parse
           ["event: complete" ++ nl]
           ("data: {}" ++ nl ++ nl ++ "event: progress")
           ("data: " ++ payload_progress)).
  reflexivity.
Defined.

Lemma truthy_not_empty (s : string) : truthy s = true -> s <> "".
Proof. destruct s; [discriminate | intros _; discriminate]. Qed.



(** ** The event callback of the hook (useSSE.ts, lines 50-72) *)

Section EventCallback.

Import UseSSE.
Context {T P : Type}.
Variable as_T : json -> T.

Lemma eqb_neq_false (a b : string) : a <> b -> String.eqb a b = false.
Proof. intros N. now apply String.eqb_neq. Qed.

Lemma on_event_other_kind
      (o : option (options T P)) (ev : SSEEvent) (w : world T P) :
  event ev <> "progress" -> event ev <> "dimension_complete" ->
  event ev <> "step_complete" -> event ev <> "artifact_complete" ->
  event ev <> "complete" ->
  on_event as_T o ev w = Return tt w.
Proof.
  intros N1 N2 N3 N4 N5. unfold on_event.
  now rewrite !eqb_neq_false.
Qed.

(** X10. An event whose kind is none of [progress], [dimension_complete],
    [step_complete], [artifact_complete] and [complete] is ignored:
    neither the stream state changes nor is [onProgress] called. *)
Theorem other_event_kinds_are_ignored
        (o : option (options T P)) (ev : SSEEvent) (w : world T P) :
  ~ In (event ev) ["progress"; "dimension_complete"; "step_complete";
                   "artifact_complete"; "complete"] ->
  on_event as_T o ev w = Return tt w.
Proof.
  intros N. apply on_event_other_kind;
    intros E; apply N; rewrite E; cbn; tauto.
Qed.

(** X11. Only a [complete] event ends the round.  Any other event leaves
    [loading], [result] and [error] as they are, whether the callback
    returns or throws; and it throws only what [onProgress] throws. *)
Theorem only_complete_is_terminal
        (o : option (options T P)) (ev : SSEEvent) (w : world T P) :
  event ev <> "complete" ->
  let w' := final (on_event as_T o ev w) in
  loading (state w') = loading (state w)
  /\ result (state w') = result (state w)
  /\ error (state w') = error (state w)
  /\ (forall e w1,
         on_event as_T o ev w = Throw e w1 ->
         exists f x p0 p1,
           o = Some {| onProgress := Some f; extractResult := x |}
           /\ f ev p0 = Throw e p1).
Proof.
  intros N. unfold on_event. rewrite (eqb_neq_false _ _ N).
  unfold setState, call_onProgress, on_page, bind, ret.
  destruct o as [[[f|] x]|]; case_ifs; cbn;
    repeat match goal with
           | |- context [match read ?k ?d with _ => _ end] => destruct (read k d)
           | |- context [match ?f ?e ?p with _ => _ end] =>
               destruct (f e p) as [[] ?|? ?] eqn:?
           end; cbn;
    (split; [reflexivity|]; split; [reflexivity|]; split; [reflexivity|]);
    intros e0 w1 E; try discriminate;
    injection E as <- <-; eauto 10.
Qed.

End EventCallback.

Lemma other_event_kinds_are_ignored_witness :
  UseSSE.on_event scenario_cast (Some (IteratePage.analysis_options scenario_cast))
                  {| event := "type_detected";
                     data := JObj [("artifact_type", JStr "user_story")] |}
                  (UseSSE.current (IteratePage.analysis IteratePage.mounted))
  = Return tt (UseSSE.current (IteratePage.analysis IteratePage.mounted)).
Proof.
  apply (other_event_kinds_are_ignored scenario_cast).
  cbn. intros [E|[E|[E|[E|[E|[]]]]]]; discriminate.
Defined.

Lemma only_complete_is_terminal_witness :
  let w := UseSSE.current (IteratePage.analysis IteratePage.mounted) in
  let w' := final (UseSSE.on_event scenario_cast
                     (Some (IteratePage.analysis_options scenario_cast))
                     {| event := "progress"; data := JNull |} w) in
  UseSSE.loading (UseSSE.state w') = false
  /\ UseSSE.result (UseSSE.state w') = None
  /\ UseSSE.error (UseSSE.state w') = None.
Proof.
  intros w w'.
  destruct (only_complete_is_terminal scenario_cast
              (Some (IteratePage.analysis_options scenario_cast))
              {| event := "progress"; data := JNull |} w)
    as (H1 & H2 & H3 & _); [discriminate|].
  fold w' in H1, H2, H3. rewrite H1, H2, H3. repeat split.
Defined.

(** X12. [AnalysePage]'s [handleProgress] has a branch for [type_detected]
    events that adds a step [Detected: <type>], but the hook never calls
    [onProgress] for that kind: whatever the options, such an event
    changes nothing. *)
Theorem type_detected_never_reaches_the_handler
        (T P : Type) (as_T : json -> T) (o : option (UseSSE.options T P))
        (ev : SSEEvent) (s : string) (w : UseSSE.world T P)
        (p : UseSSE.page_cells IteratePage.steps) :
  event ev = "type_detected" ->
  get "artifact_type" (data ev) = Some (JStr s) ->
  AnalysePage.handleProgress ev p
  = Return tt
      {| UseSSE.cells :=
           {| IteratePage.completedSteps :=
                (IteratePage.completedSteps (UseSSE.cells p)
                 ++ [{| IteratePage.step_name :=
                          Some (JStr ("Detected: " ++ AnalysePage.replace_underscores s));
                        IteratePage.step_score := None |}])%list;
              IteratePage.totalSteps := IteratePage.totalSteps (UseSSE.cells p) |};
         UseSSE.queued_error := UseSSE.queued_error p |}
  /\ UseSSE.on_event as_T o ev w = Return tt w.
Proof.
  intros E A. split.
  - unfold AnalysePage.handleProgress, IteratePage.handleProgress. rewrite E.
    cbn [String.eqb Ascii.eqb Bool.eqb]. unfold bind, ret.
    unfold IteratePage.setCompletedSteps, UseSSE.update, AnalysePage.detected_step, read.
    destruct (data ev); try discriminate. rewrite A. reflexivity.
  - apply on_event_other_kind; rewrite E; discriminate.
Qed.

Lemma type_detected_never_reaches_the_handler_witness :
  AnalysePage.handleProgress
    {| event := "type_detected"; data := JObj [("artifact_type", JStr "user_story")] |}
    {| UseSSE.cells := {| IteratePage.completedSteps := [];
                          IteratePage.totalSteps := None |};
       UseSSE.queued_error := None |}
  = Return tt
      {| UseSSE.cells :=
           {| IteratePage.completedSteps :=
                [{| IteratePage.step_name := Some (JStr "Detected: user story");
                    IteratePage.step_score := None |}];
              IteratePage.totalSteps := None |};
         UseSSE.queued_error := None |}.
Proof.
  apply (type_detected_never_reaches_the_handler
           IterationResult.t IteratePage.steps scenario_cast None
           {| event := "type_detected"; data := JObj [("artifact_type", JStr "user_story")] |}
           "user_story"
           (UseSSE.current (IteratePage.analysis IteratePage.mounted))
           {| UseSSE.cells := {| IteratePage.completedSteps := [];
                                 IteratePage.totalSteps := None |};
              UseSSE.queued_error := None |});
    reflexivity.
Defined.

(** ** Requests of the hook (useSSE.ts) *)

Section Requests.

Import UseSSE.
Context {T P : Type}.
Variable JSON_parse : string -> option json.
Variable as_T : json -> T.

(** X13. A failure that is not an abort, whenever it comes, ends the
    request and sets [loading] to false and [error] to the message; it
    clears neither [result] nor the progress text, so a failure after the
    [complete] event leaves the result of the round in place. *)
Theorem failure_keeps_result (k : nat) (e : js_error) (r : request T P) (c : client T P) :
  requests c !! k = Some r -> stage r <> Settled ->
  String.eqb (name e) "AbortError" = false ->
  let c' := deliver JSON_parse as_T k (Failed e) c in
  state (current c')
  = {| loading := false;
       progress := progress (state (current c));
       progressDetail := progressDetail (state (current c));
       result := result (state (current c));
       error := Some (message e) |}
  /\ observer (current c') = observer (current c)
  /\ settled k c' = true.
Proof.
  intros Hk Hs He c'. subst c'. unfold deliver. rewrite Hk.
  destruct r as [ph o]. cbn [stage] in Hs.
  pose proof (lookup_lt_Some _ _ _ Hk) as Lk.
  destruct ph; try congruence;
    unfold advance, try_catch, throw, bind, catch_handler; rewrite He;
    cbn; unfold settled; cbn; rewrite list_lookup_insert_eq by exact Lk;
    repeat split.
Qed.

Lemma abort_noop (k : nat) (c : client T P) :
  requests c !! k = None \/ settled k c = true -> abort k c = c.
Proof.
  unfold abort, settled. intros [E|E].
  - now rewrite E.
  - destruct (requests c !! k) as [[ph o]|]; [|reflexivity].
    destruct ph; try discriminate. reflexivity.
Qed.

Lemma abort_settles_or_misses (k : nat) (c : client T P) :
  requests (abort k c) !! k = None \/ settled k (abort k c) = true.
Proof.
  destruct (requests c !! k) as [r|] eqn:E.
  - right. apply abort_settles. now apply lookup_lt_Some in E.
  - left. unfold abort. now rewrite E.
Qed.

(** X14. [cancel] is idempotent: a second [cancel] changes nothing, also
    after the request has ended by itself. *)
Theorem cancel_idempotent (c : client T P) : cancel (cancel c) = cancel c.
Proof.
  unfold cancel at 1.
  assert (controllerRef (cancel c) = controllerRef c) as R.
  { unfold cancel; cbn [controllerRef].
    destruct (controllerRef c) eqn:E; [now rewrite abort_controllerRef | exact E]. }
  rewrite R. destruct (controllerRef c) as [k|] eqn:Ec.
  - rewrite abort_noop.
    + unfold cancel. rewrite Ec. reflexivity.
    + unfold settled. unfold cancel. rewrite Ec. cbn [requests].
      apply abort_settles_or_misses.
  - unfold cancel. rewrite Ec. reflexivity.
Qed.

Lemma settled_app (k : nat) (c : client T P) (w : world T P) (j : option nat)
      (r : request T P) (l : list (request T P)) :
  settled k {| current := w; controllerRef := j; requests := l |} = true ->
  settled k {| current := w; controllerRef := j; requests := (l ++ [r])%list |} = true.
Proof.
  unfold settled; cbn. intros S.
  destruct (l !! k) as [x|] eqn:E; [|discriminate].
  now rewrite (lookup_app_l_Some _ _ _ _ E).
Qed.

(** [start], [cancel] and the deliveries keep [one_request_at_most]. *)
Lemma start_one_request (o : option (options T P)) (c : client T P) :
  one_request_at_most c -> one_request_at_most (start o c).
Proof.
  intros I k Hk Hc. unfold start in *. cbn [requests controllerRef] in *.
  set (c1 := match controllerRef c with Some j => abort j c | None => c end) in *.
  rewrite length_app in Hk. cbn in Hk.
  assert (k < List.length (requests c1))%nat as Lk.
  { destruct (decide (k = List.length (requests c1))) as [->|N]; [congruence | lia]. }
  assert (settled k c1 = true) as S.
  { subst c1. destruct (controllerRef c) as [j|] eqn:Ej.
    - rewrite abort_length in Lk. destruct (decide (j = k)) as [->|N].
      + now apply abort_settles.
      + apply abort_keeps_settled. apply I; [exact Lk | congruence].
    - apply I; [exact Lk | congruence]. }
  unfold settled in *; cbn.
  destruct (requests c1 !! k) as [x|] eqn:E; [|discriminate].
  now rewrite (lookup_app_l_Some _ _ _ _ E).
Qed.

Lemma cancel_one_request (c : client T P) :
  one_request_at_most c -> one_request_at_most (cancel c).
Proof.
  intros I k Hk Hc. unfold cancel in *. cbn [requests controllerRef] in *.
  unfold settled; cbn [requests].
  destruct (controllerRef c) as [j|] eqn:Ej.
  - rewrite abort_controllerRef in Hc. rewrite abort_length in Hk.
    apply abort_keeps_settled. apply I; [exact Hk | congruence].
  - apply I; [exact Hk | congruence].
Qed.

Lemma deliver_one_request (j : nat) (d : delivery) (c : client T P) :
  one_request_at_most c -> one_request_at_most (deliver JSON_parse as_T j d c).
Proof.
  intros I k Hk Hc. rewrite deliver_length in Hk. rewrite deliver_controllerRef in Hc.
  apply deliver_keeps_settled. now apply I.
Qed.

End Requests.

Lemma failure_keeps_result_witness :
  let c := IteratePage.analysis
             (IteratePage.run scenario_parse scenario_cast
                [IteratePage.RunAnalysis;
                 IteratePage.Network 0 (UseSSE.Responded 200 true);
                 IteratePage.Network 0
                   (UseSSE.ChunkRead (frame "complete" (payload_round "1" "55")))]
                IteratePage.mounted) in
  let c' := UseSSE.deliver scenario_parse scenario_cast 0
                           (UseSSE.Failed (Error "connection reset")) c in
  UseSSE.error (UseSSE.state (UseSSE.current c')) = Some "connection reset"
  /\ option_map IterationResult.result (UseSSE.result (UseSSE.state (UseSSE.current c')))
     = Some (Some {| overall_score := 55; iteration_number := 1 |}).
Proof.
  intros c c'.
  destruct (failure_keeps_result scenario_parse scenario_cast 0
              (Error "connection reset")
              {| UseSSE.stage := UseSSE.Reading "";
                 UseSSE.opts := Some (IteratePage.analysis_options scenario_cast) |} c)
    as (H & _ & _); [reflexivity | discriminate | reflexivity |].
  fold c' in H. rewrite H. split; reflexivity.
Defined.

(** X15. At most one request is in flight.  In every state the page can
    reach, every request the hook has opened, except the one whose
    controller it holds, has run to its end. *)
Theorem one_request_in_flight
        (JSON_parse : string -> option json) (cast : json -> IterationResult.t)
        (tr : list IteratePage.action) :
  one_request_at_most
    (IteratePage.analysis (IteratePage.run JSON_parse cast tr IteratePage.mounted)).
Proof.
  induction tr as [|a tr IH] using rev_ind.
  - intros k Hk. cbn in Hk. lia.
  - rewrite run_app. cbn [IteratePage.run fold_left].
    destruct a; cbn [IteratePage.step IteratePage.analysis].
    + unfold IteratePage.runAnalysis. cbn [IteratePage.analysis].
      apply start_one_request. intros k Hk Hc. apply (IH k Hk Hc).
    + now apply cancel_one_request.
    + now apply deliver_one_request.
    + exact IH.
Qed.

(** ** The history of the page (IteratePage.tsx, lines 71-81) *)

Section History.

Import UseSSE IteratePage.
Variable JSON_parse : string -> option json.
Variable cast : json -> IterationResult.t.

Lemma on_render_extends (res : option IterationResult.t) (p : page) :
  exists l, history (on_render res p) = (history p ++ l)%list.
Proof.
  destruct res as [r|]; [|exists []; cbn; now rewrite app_nil_r].
  destruct (commits r p) eqn:C.
  - destruct (commits_has_result _ _ C) as [a R].
    rewrite (on_render_commits _ _ _ C R). cbn. now eexists.
  - rewrite (on_render_keeps _ _ C). exists []. now rewrite app_nil_r.
Qed.

(** X16. The history is append-only.  Whatever happens (rounds started or
    cancelled, deliveries, errors, runs of the render function), the
    history afterwards is the history before with entries added at the
    end; no entry is removed, changed or moved. *)
Theorem history_is_append_only (tr : list action) (s : app) :
  exists l, history (view (IteratePage.run JSON_parse cast tr s))
            = (history (view s) ++ l)%list.
Proof.
  revert s. induction tr as [|a tr IH]; intros s.
  - exists []. cbn. now rewrite app_nil_r.
  - change (IteratePage.run JSON_parse cast (a :: tr) s)
      with (IteratePage.run JSON_parse cast tr (IteratePage.step JSON_parse cast a s)).
    destruct (IH (IteratePage.step JSON_parse cast a s)) as [l H]. rewrite H.
    destruct a; cbn [IteratePage.step view runAnalysis];
      try (now exists l).
    destruct (render_error _); [now exists l|].
    destruct (on_render_extends (result (state (current (analysis s)))) (view s))
      as [l0 H0].
    rewrite H0. exists (l0 ++ l)%list. now rewrite app_assoc.
Qed.

Lemma on_render_above_index (res : option IterationResult.t) (p : page) :
  iterations_above_index p -> iterations_above_index (on_render res p).
Proof.
  intros I. destruct res as [r|]; [|exact I].
  destruct (commits r p) eqn:C; [|now rewrite (on_render_keeps _ _ C)].
  destruct (commits_has_result _ _ C) as [a R].
  rewrite (on_render_commits _ _ _ C R). intros i e. cbn [history].
  intros H. apply lookup_app_Some in H as [H|[Hi H]].
  - now apply I.
  - destruct (i - List.length (history p))%nat as [|n] eqn:D; [|destruct n; discriminate].
    cbn in H. injection H as <-. cbn [iteration].
    unfold commits in C. rewrite (declared_iteration_number _ _ R) in C.
    apply Z.ltb_lt in C. lia.
Qed.

(** X17. In every state the page can reach, each entry of the history has
    an iteration number greater than its index: the entry at index [i]
    (the [i+1]-th) was declared with a number of at least [i+1]. *)
Theorem history_iterations_above_index (tr : list action) :
  iterations_above_index (view (IteratePage.run JSON_parse cast tr mounted)).
Proof.
  induction tr as [|a tr IH] using rev_ind.
  - intros i e H. cbn in H. discriminate.
  - rewrite run_app. cbn [IteratePage.run fold_left].
    destruct a; cbn [IteratePage.step view runAnalysis]; try exact IH.
    destruct (render_error _); [exact IH | now apply on_render_above_index].
Qed.

End History.

Section Rerender.

Import IteratePage.

Lemma repeat_snoc {A : Type} (x : A) (n : nat) :
  (repeat x n ++ [x])%list = repeat x (S n).
Proof. induction n as [|n IH]; cbn; [reflexivity | now rewrite IH]. Qed.

(** X18. What the render function does with a result that skips iteration
    numbers.  Run again and again with the same result, it appends the
    same entry once per run until the history is as long as the declared
    iteration number: after [n] runs the history has
    [min n (iteration_number - history.length)] copies of the entry at
    its end, and nothing else has changed in it. *)
Theorem rerender_appends_copies
        (r : IterationResult.t) (a : AnalysisResult) (p : page) (n : nat) :
  IterationResult.result r = Some a ->
  history (rerender n (Some r) p)
  = (history p
     ++ repeat {| iteration := iteration_number a; score := overall_score a |}
               (Nat.min n (Z.to_nat (iteration_number a
                                     - Z.of_nat (List.length (history p))))))%list.
Proof.
  intros R. set (K := Z.to_nat (iteration_number a - Z.of_nat (List.length (history p)))).
  induction n as [|n IH].
  - cbn. now rewrite app_nil_r.
  - unfold rerender in *. rewrite Nat.iter_succ.
    set (q := Nat.iter n (on_render (Some r)) p) in *.
    destruct (commits r q) eqn:C.
    + rewrite (on_render_commits _ _ _ C R). cbn [history]. rewrite IH.
      unfold commits in C. rewrite (declared_iteration_number _ _ R), IH in C.
      rewrite length_app, repeat_length in C. apply Z.ltb_lt in C.
      assert (n < K)%nat as L by (subst K; lia).
      rewrite <- app_assoc, repeat_snoc.
      now replace (Nat.min n K) with n by lia; replace (Nat.min (S n) K) with (S n) by lia.
    + rewrite (on_render_keeps _ _ C), IH.
      unfold commits in C. rewrite (declared_iteration_number _ _ R), IH in C.
      rewrite length_app, repeat_length in C. apply Z.ltb_ge in C.
      assert (K <= n)%nat as L by (subst K; lia).
      now replace (Nat.min n K) with K by lia; replace (Nat.min (S n) K) with K by lia.
Qed.

End Rerender.

Lemma rerender_appends_copies_witness :
  IteratePage.history
    (IteratePage.rerender 5
       (Some {| IterationResult.result := Some {| overall_score := 82; iteration_number := 3 |};
                IterationResult.comparison := None;
                IterationResult.is_ready := true |})
       {| IteratePage.threshold := 80;
          IteratePage.history := [{| IteratePage.iteration := 1; IteratePage.score := 55 |}];
          IteratePage.isReady := false; IteratePage.comparison := None |})
  = [{| IteratePage.iteration := 1; IteratePage.score := 55 |};
     {| IteratePage.iteration := 3; IteratePage.score := 82 |};
     {| IteratePage.iteration := 3; IteratePage.score := 82 |}].
Proof.
  rewrite (rerender_appends_copies
             {| IterationResult.result := Some {| overall_score := 82; iteration_number := 3 |};
                IterationResult.comparison := None;
                IterationResult.is_ready := true |}
             {| overall_score := 82; iteration_number := 3 |});
    reflexivity.
Defined.

(** ** The JSON client and the configuration store *)

(** X19. The two clients report a failed response alike.  For a response
    whose status is not a success status and whose body is read to its
    end, [request] rejects with the very error that [connectSSE] hands to
    its error callback, [HTTP <status>: <body>]; the body is not
    decoded. *)
Theorem request_and_connectSSE_report_alike
        (json_of : string -> json + js_error) (JSON_parse : string -> option json)
        (r : response) (text : string) :
  ok r = false -> read_all r = inl text ->
  Client.request json_of (Fulfilled r)
  = inr (Error ("HTTP " ++ of_nat (status r) ++ ": " ++ text))
  /\ calls JSON_parse (Fulfilled r)
     = [CalledError (Error ("HTTP " ++ of_nat (status r) ++ ": " ++ text))].
Proof.
  intros Hok Hbody. split.
  - unfold Client.request. now rewrite Hok, Hbody.
  - unfold calls. rewrite (connectSSE_not_ok _ _ _ _ _ Hok). now rewrite Hbody.
Qed.

Lemma request_and_connectSSE_report_alike_witness :
  Client.request (fun _ => inl JNull)
                 (Fulfilled {| status := 404;
                               body := Some {| reads := ["not "; "found"];
                                               ending := None |} |})
  = inr (Error "HTTP 404: not found").
Proof.
  apply (request_and_connectSSE_report_alike
           (fun _ => inl JNull) scenario_parse
           {| status := 404;
              body := Some {| reads := ["not "; "found"]; ending := None |} |}
           "not found"); reflexivity.
Defined.

(** X20. [fetchConfig] always ends with [loading] false.  When the call
    fails, the config stored before stays and [error] is the message of
    the failure; when it succeeds, the data is stored and [error] is
    null.  After a failure with a message, [ConfigPage] shows the error
    box, also when a config from an earlier call is still stored. *)
Theorem fetchConfig_outcomes (settled : json + js_error) (s : ConfigStore.store) :
  let s' := ConfigStore.fetchConfig settled s in
  ConfigStore.loading s' = false
  /\ (forall e, settled = inr e ->
                ConfigStore.config s' = ConfigStore.config s
                /\ ConfigStore.error s' = Some (message e)
                /\ (message e <> "" ->
                    ConfigStore.ConfigPage s' = ConfigStore.ErrorBox (message e)))
  /\ (forall data, settled = inl data ->
                   ConfigStore.config s' = Some data
                   /\ ConfigStore.error s' = None).
Proof.
  destruct settled as [data|e]; cbn.
  - split; [reflexivity|]. split.
    + intros e H. discriminate.
    + intros d [= <-]. split; reflexivity.
  - split; [reflexivity|]. split.
    + intros e0 [= <-]. split; [reflexivity|]. split; [reflexivity|].
      intros N. unfold ConfigStore.ConfigPage; cbn.
      now rewrite (truthy_true _ N).
    + intros d H. discriminate.
Qed.

Lemma fetchConfig_outcomes_witness :
  ConfigStore.ConfigPage
    (ConfigStore.fetchConfig
       (Client.request (fun _ => inl JNull)
          (Fulfilled {| status := 500; body := None |}))
       {| ConfigStore.config := Some (JObj [("aws_region", JStr "eu-west-2")]);
          ConfigStore.loading := false; ConfigStore.error := None |})
  = ConfigStore.ErrorBox "HTTP 500: ".
Proof.
  destruct (fetchConfig_outcomes
              (Client.request (fun _ => inl JNull)
                 (Fulfilled {| status := 500; body := None |}))
              {| ConfigStore.config := Some (JObj [("aws_region", JStr "eu-west-2")]);
                 ConfigStore.loading := false; ConfigStore.error := None |})
    as (_ & H & _).
  destruct (H (Error "HTTP 500: ")) as (_ & _ & K); [reflexivity|].
  apply K. discriminate.
Defined.

(** ** The handlers of the iteration page *)

Section SessionHandlers.

Import IterateSession.
Variable cast : json -> IterationResult.t.

(** X21. [handleApplySuggestions].  Without a session id or without ids it
    does nothing.  Otherwise [applying] is false when it ends, however
    the API call settles; and when the call fails, the failure is
    rethrown and nothing but [applying] has changed: the artifact text is
    the old one and no round has been started. *)
Theorem apply_suggestions_outcomes
        (ids : list string) (settled : json + js_error) (s : session) :
  (IteratePage.truthy_value (sessionId s) = false \/ ids = [] ->
   handleApplySuggestions cast ids settled s = Return tt s)
  /\ (IteratePage.truthy_value (sessionId s) = true -> ids <> [] ->
      applying (final (handleApplySuggestions cast ids settled s)) = false
      /\ forall e, settled = inr e ->
                   handleApplySuggestions cast ids settled s
                   = Throw e {| sessionId := sessionId s;
                                artifactText := artifactText s;
                                editMode := editMode s;
                                editText := editText s;
                                applying := false;
                                page := page s |}).
Proof.
  unfold handleApplySuggestions. split.
  - intros [H| ->]; [now rewrite H | now rewrite orb_true_r].
  - intros H N. rewrite H. destruct ids as [|i ids]; [congruence|]. cbn [negb orb List.length Nat.eqb].
    split.
    + destruct settled as [j|e]; [|reflexivity].
      destruct j; reflexivity.
    + intros e ->. reflexivity.
Qed.

(** X22. [handleSaveEdit].  When the save fails nothing changes: the page
    stays in edit mode, with the old artifact text and no new round.
    When it succeeds, the artifact text becomes the edited text, whatever
    the reply was, edit mode ends and a round is started. *)
Theorem save_edit_outcomes (settled : json + js_error) (s : session) :
  IteratePage.truthy_value (sessionId s) = true ->
  (forall e, settled = inr e -> handleSaveEdit cast settled s = Throw e s)
  /\ (forall reply, settled = inl reply ->
        handleSaveEdit cast settled s
        = Return tt {| sessionId := sessionId s;
                       artifactText := Some (JStr (editText s));
                       editMode := false;
                       editText := editText s;
                       applying := applying s;
                       page := IteratePage.runAnalysis cast (page s) |}).
Proof.
  intros H. unfold handleSaveEdit. rewrite H. cbn [negb].
  split; intros x ->; reflexivity.
Qed.

End SessionHandlers.

Lemma apply_suggestions_outcomes_witness :
  let s := {| IterateSession.sessionId := Some (JStr "s1");
              IterateSession.artifactText := Some (JStr "The system shall be fast.");
              IterateSession.editMode := false;
              IterateSession.editText := "";
              IterateSession.applying := false;
              IterateSession.page := IteratePage.mounted |} in
  IterateSession.handleApplySuggestions
    scenario_cast ["SUG-1"]
    (Client.request (fun _ => inl JNull) (Fulfilled {| status := 502; body := None |})) s
  = Throw (Error "HTTP 502: ") s.
Proof.
  intros s.
  destruct (apply_suggestions_outcomes scenario_cast ["SUG-1"]
              (Client.request (fun _ => inl JNull)
                              (Fulfilled {| status := 502; body := None |})) s)
    as [_ H].
  destruct H as [_ K]; [reflexivity | discriminate |].
  apply K. reflexivity.
Defined.

Lemma save_edit_outcomes_witness :
  let s := {| IterateSession.sessionId := Some (JStr "s1");
              IterateSession.artifactText := Some (JStr "old");
              IterateSession.editMode := true;
              IterateSession.editText := "new";
              IterateSession.applying := false;
              IterateSession.page := IteratePage.mounted |} in
  IterateSession.artifactText
    (final (IterateSession.handleSaveEdit
              scenario_cast (inl (JObj [("artifact_text", JStr "from the server")])) s))
  = Some (JStr "new").
Proof.
  intros s.
  destruct (save_edit_outcomes scenario_cast
              (inl (JObj [("artifact_text", JStr "from the server")])) s) as [_ H];
    [reflexivity|].
  rewrite (H _ eq_refl). reflexivity.
Defined.

(** ** The compare page *)

(** X23. [New comparison] does not get the page out of [done].  While the
    hook still holds the result of the last comparison, which the button
    does not clear, the next run of the render function sets the step
    back to [done]: both texts are cleared, no upload box is shown. *)
Theorem new_comparison_bounces_back (R : Type) (p : ComparePage.page R) :
  UseSSE.result (UseSSE.state (UseSSE.current (ComparePage.comparison p))) <> None ->
  ComparePage.on_render (ComparePage.newComparison p)
  = {| ComparePage.text1 := ""; ComparePage.text2 := "";
       ComparePage.step := ComparePage.Done;
       ComparePage.comparison := ComparePage.comparison p |}
  /\ ComparePage.shows_upload (ComparePage.on_render (ComparePage.newComparison p))
     = false.
Proof.
  intros H. unfold ComparePage.on_render, ComparePage.shows_upload; cbn.
  destruct (UseSSE.result _); [split; reflexivity | congruence].
Qed.

Lemma new_comparison_bounces_back_witness :
  let p := {| ComparePage.text1 := "a"; ComparePage.text2 := "b";
              ComparePage.step := ComparePage.Done;
              ComparePage.comparison :=
                UseSSE.deliver scenario_parse (fun j : json => j) 0
                  (UseSSE.ChunkRead (frame "complete" "{}"))
                  (UseSSE.deliver scenario_parse (fun j : json => j) 0
                     (UseSSE.Responded 200 true)
                     (UseSSE.start None (UseSSE.mount tt))) |} in
  ComparePage.step (ComparePage.on_render (ComparePage.newComparison p))
  = ComparePage.Done.
Proof.
  intros p.
  destruct (new_comparison_bounces_back json p) as [H _]; [discriminate|].
  rewrite H. reflexivity.
Defined.

(** ** The selection of suggestions *)

Section Selection.

Import SuggestionsList.

Lemma has_In (id : string) (s : list string) : has id s = true <-> List.In id s.
Proof.
  unfold has. rewrite List.existsb_exists. split.
  - intros (x & Hx & E). apply String.eqb_eq in E. now subst.
  - intros H. exists id. split; [exact H | apply String.eqb_refl].
Qed.

Lemma has_not_In (id : string) (s : list string) : has id s = false <-> ~ List.In id s.
Proof.
  rewrite <- has_In. destruct (has id s); split; congruence.
Qed.

Lemma delete_In (id x : string) (s : list string) :
  List.In x (delete id s) <-> List.In x s /\ x <> id.
Proof.
  unfold delete. rewrite List.filter_In, negb_true_iff, String.eqb_neq.
  split; intros [H N]; split; congruence.
Qed.

Lemma delete_absent (id : string) (s : list string) :
  ~ List.In id s -> delete id s = s.
Proof.
  intros N. unfold delete. induction s as [|x s IH]; [reflexivity|].
  cbn. destruct (String.eqb_spec id x) as [->|D].
  - exfalso. apply N. now left.
  - cbn. rewrite IH; [reflexivity|]. intros H. apply N. now right.
Qed.

Lemma add_In (id x : string) (s : list string) :
  List.In x (add id s) <-> List.In x s \/ x = id.
Proof.
  unfold add. destruct (has id s) eqn:H.
  - apply has_In in H. split; [now left | intros [K| ->]; assumption].
  - rewrite List.in_app_iff. cbn. intuition congruence.
Qed.

Lemma add_NoDup (id : string) (s : list string) :
  List.NoDup s -> List.NoDup (add id s).
Proof.
  intros N. unfold add. destruct (has id s) eqn:H; [exact N|].
  apply has_not_In in H. apply List.NoDup_app.
  - exact N.
  - repeat constructor. intros [].
  - intros x Hx [<-|[]]. contradiction.
Qed.

(** X24. [toggle] flips whether [id] is selected and nothing else: the
    other ids stay selected or not as they were, and no id comes to be
    in the set twice. *)
Theorem toggle_flips_membership (id : string) (selected : list string) :
  List.NoDup selected ->
  List.NoDup (toggle id selected)
  /\ (List.In id (toggle id selected) <-> ~ List.In id selected)
  /\ forall x, x <> id -> (List.In x (toggle id selected) <-> List.In x selected).
Proof.
  intros N. unfold toggle. destruct (has id selected) eqn:H.
  - apply has_In in H. split; [now apply List.NoDup_filter|]. split.
    + rewrite delete_In. intuition.
    + intros x D. rewrite delete_In. intuition.
  - apply has_not_In in H. split; [now apply add_NoDup|]. split.
    + rewrite add_In. intuition.
    + intros x D. rewrite add_In. intuition.
Qed.

(** X25. Toggling twice.  An id that was not selected leaves the selection
    exactly as it was; an id that was selected is selected again but has
    moved to the end, which is the order in which [Apply Selected] hands
    the ids over. *)
Theorem toggle_twice (id : string) (selected : list string) :
  (~ List.In id selected -> toggle id (toggle id selected) = selected)
  /\ (List.In id selected ->
      toggle id (toggle id selected) = (delete id selected ++ [id])%list).
Proof.
  split; intros H.
  - unfold toggle at 2. rewrite (proj2 (has_not_In id selected) H).
    unfold add. rewrite (proj2 (has_not_In id selected) H).
    unfold toggle.
    assert (has id (selected ++ [id])%list = true) as ->
        by (apply has_In, List.in_app_iff; right; now left).
    unfold delete. rewrite List.filter_app. cbn. rewrite String.eqb_refl. cbn.
    rewrite app_nil_r. now apply delete_absent.
  - unfold toggle at 2. rewrite (proj2 (has_In id selected) H).
    unfold toggle.
    assert (has id (delete id selected) = false) as ->
        by (apply has_not_In; rewrite delete_In; intuition).
    unfold add.
    now assert (has id (delete id selected) = false) as ->
        by (apply has_not_In; rewrite delete_In; intuition).
Qed.

Lemma set_of_from (ids acc : list string) :
  List.NoDup acc ->
  List.NoDup (fold_left (fun s id => add id s) ids acc)
  /\ forall x, List.In x (fold_left (fun s id => add id s) ids acc)
               <-> List.In x acc \/ List.In x ids.
Proof.
  revert acc. induction ids as [|i ids IH]; intros acc N; cbn.
  - split; [exact N | intuition].
  - destruct (IH (add i acc) (add_NoDup i acc N)) as [N' I']. split; [exact N'|].
    intros x. rewrite I', add_In. intuition.
Qed.

(** X26. [Select All] selects every id of the suggestions, and each one
    once, also when two suggestions have the same id; the [Apply
    Selected] button is then disabled only if there are no
    suggestions. *)
Theorem selectAll_selects_each_once (ids : list string) :
  List.NoDup (selectAll ids)
  /\ (forall x, List.In x (selectAll ids) <-> List.In x ids)
  /\ (apply_disabled (selectAll ids) = true <-> ids = []).
Proof.
  destruct (set_of_from ids [] (List.NoDup_nil _)) as [N I].
  split; [exact N|]. split; [intros x; rewrite (I x); cbn; intuition|].
  unfold apply_disabled. rewrite Nat.eqb_eq. split.
  - intros L. destruct ids as [|i ids]; [reflexivity|].
    assert (List.In i (selectAll (i :: ids))) as K by (apply I; right; now left).
    destruct (selectAll (i :: ids)); [destruct K | discriminate].
  - intros ->. reflexivity.
Qed.

End Selection.

Lemma toggle_flips_membership_witness :
  List.NoDup (SuggestionsList.toggle "SUG-2" ["SUG-1"; "SUG-2"; "SUG-3"])
  /\ (List.In "SUG-4" (SuggestionsList.toggle "SUG-4" ["SUG-1"; "SUG-2"; "SUG-3"])
      <-> ~ List.In "SUG-4" ["SUG-1"; "SUG-2"; "SUG-3"]).
Proof.
  split.
  - apply (toggle_flips_membership "SUG-2" ["SUG-1"; "SUG-2"; "SUG-3"]).
    repeat constructor; cbn; intuition discriminate.
  - apply (toggle_flips_membership "SUG-4" ["SUG-1"; "SUG-2"; "SUG-3"]).
    repeat constructor; cbn; intuition discriminate.
Defined.

Lemma toggle_twice_witness :
  SuggestionsList.toggle "SUG-1"
    (SuggestionsList.toggle "SUG-1" ["SUG-1"; "SUG-2"])
  = ["SUG-2"; "SUG-1"].
Proof.
  destruct (toggle_twice "SUG-1" ["SUG-1"; "SUG-2"]) as [_ H].
  rewrite H; [reflexivity | now left].
Defined.

(** ** The groups of stories *)

Section Groups.

Import StoriesPage.

Lemma group_stories_from (stories : list UserStory) (g0 : groups_t) :
  Forall (fun s => existsb (String.eqb (epic s)) inherited = false) stories ->
  exists g, group_stories stories g0 = Some g
            /\ forall e, g e = (g0 e ++ List.filter (fun s => String.eqb (epic s) e) stories)%list.
Proof.
  intros F. revert g0. induction F as [|s stories Hs F IH]; intros g0.
  - exists g0. split; [reflexivity|]. intros e. cbn. now rewrite app_nil_r.
  - cbn [group_stories]. rewrite Hs.
    destruct (IH (push (epic s) s g0)) as (g & E & G).
    exists g. split; [exact E|]. intros e. rewrite G. unfold push. cbn [List.filter].
    rewrite (String.eqb_sym e (epic s)).
    destruct (String.eqb_spec (epic s) e) as [->|N].
    + now rewrite <- app_assoc.
    + reflexivity.
Qed.

(** X27. [epicGroups] groups the stories by epic.  When no epic is a name
    that objects inherit, every key holds exactly the stories of that
    epic, in their order in the list, so each story is in one group, its
    own; when a story has such an epic ([constructor], [toString], ...)
    the grouping throws. *)
Theorem epicGroups_groups_by_epic (stories : list UserStory) :
  (Forall (fun s => existsb (String.eqb (epic s)) inherited = false) stories ->
   exists g, epicGroups stories = Some g
             /\ forall e, g e = List.filter (fun s => String.eqb (epic s) e) stories)
  /\ (Exists (fun s => existsb (String.eqb (epic s)) inherited = true) stories ->
      epicGroups stories = None).
Proof.
  split.
  - intros F. destruct (group_stories_from stories no_groups F) as (g & E & G).
    exists g. split; [exact E|]. intros e. now rewrite G.
  - unfold epicGroups. generalize no_groups.
    induction stories as [|s stories IH]; intros g0 X.
    + inversion X.
    + cbn [group_stories].
      destruct (existsb (String.eqb (epic s)) inherited) eqn:B; [reflexivity|].
      apply IH. inversion X; subst; [congruence | assumption].
Qed.

End Groups.

Lemma epicGroups_groups_by_epic_witness :
  exists g,
    StoriesPage.epicGroups
      [{| StoriesPage.id := "US-1"; StoriesPage.epic := "Checkout"; StoriesPage.title := "Pay" |};
       {| StoriesPage.id := "US-2"; StoriesPage.epic := "Catalogue"; StoriesPage.title := "Search" |};
       {| StoriesPage.id := "US-3"; StoriesPage.epic := "Checkout"; StoriesPage.title := "Cart" |}]
    = Some g
    /\ g "Checkout"
       = [{| StoriesPage.id := "US-1"; StoriesPage.epic := "Checkout"; StoriesPage.title := "Pay" |};
          {| StoriesPage.id := "US-3"; StoriesPage.epic := "Checkout"; StoriesPage.title := "Cart" |}].
Proof.
  destruct (epicGroups_groups_by_epic
              [{| StoriesPage.id := "US-1"; StoriesPage.epic := "Checkout"; StoriesPage.title := "Pay" |};
               {| StoriesPage.id := "US-2"; StoriesPage.epic := "Catalogue"; StoriesPage.title := "Search" |};
               {| StoriesPage.id := "US-3"; StoriesPage.epic := "Checkout"; StoriesPage.title := "Cart" |}])
    as [H _].
  destruct H as (g & E & G); [repeat constructor|].
  exists g. split; [exact E|]. rewrite G. reflexivity.
Defined.

(** ** Trends, elapsed time, pasted text *)

(** X28. An unchanged score is shown as a drop in the iteration history.
    Beside a history entry the arrow points up, in green, exactly when
    the score is greater than the one before; for an equal score it
    points down, in red.  [ScoreDelta], given the difference of the two
    scores, shows the same arrow whenever they differ, and a neutral
    sign when they are equal. *)
Theorem unchanged_score_is_shown_as_a_drop (previous current : Q) :
  (fst (Scores.historyTrend previous current) = Scores.ArrowUp <-> (previous < current)%Q)
  /\ ((current == previous)%Q ->
      Scores.historyTrend previous current = (Scores.ArrowDown, "text-red-500")
      /\ Scores.ScoreDelta (current - previous) = (Scores.Minus, "text-muted-foreground"))
  /\ (~ (current == previous)%Q ->
      fst (Scores.ScoreDelta (current - previous))
      = fst (Scores.historyTrend previous current)).
Proof.
  unfold Scores.historyTrend, Scores.ScoreDelta, Scores.gt; cbn [fst].
  assert (forall a b : Q, Qle_bool a b = true <-> (a <= b)%Q) as L
      by (intros; apply Qle_bool_iff).
  assert (forall a b : Q, Qle_bool a b = false <-> (b < a)%Q) as G.
  { intros a b. rewrite <- not_true_iff_false, L. split.
    - apply Qnot_le_lt.
    - apply Qlt_not_le. }
  assert (Qle_bool (current - previous) 0 = Qle_bool current previous) as E1.
  { destruct (Qle_bool (current - previous) 0) eqn:B1;
      destruct (Qle_bool current previous) eqn:B2; try reflexivity;
      [apply L in B1; apply G in B2 | apply G in B1; apply L in B2];
      exfalso; lra. }
  assert (Qle_bool 0 (current - previous) = Qle_bool previous current) as E2.
  { destruct (Qle_bool 0 (current - previous)) eqn:B1;
      destruct (Qle_bool previous current) eqn:B2; try reflexivity;
      [apply L in B1; apply G in B2 | apply G in B1; apply L in B2];
      exfalso; lra. }
  rewrite E1, E2. split; [|split].
  - destruct (Qle_bool current previous) eqn:B; cbn.
    + apply L in B. split; [discriminate | intros H; exfalso; lra].
    + apply G in B. split; [now intros _ | reflexivity].
  - intros H.
    assert (Qle_bool current previous = true) as -> by (apply L; lra).
    assert (Qle_bool previous current = true) as -> by (apply L; lra).
    split; reflexivity.
  - intros H. destruct (Qle_bool current previous) eqn:B; cbn; [|reflexivity].
    destruct (Qle_bool previous current) eqn:B'; cbn; [|reflexivity].
    exfalso. apply H. apply L in B, B'. now apply Qle_antisym.
Qed.

Lemma unchanged_score_is_shown_as_a_drop_witness :
  Scores.historyTrend 78 78 = (Scores.ArrowDown, "text-red-500")
  /\ Scores.ScoreDelta (78 - 78) = (Scores.Minus, "text-muted-foreground").
Proof.
  apply (unchanged_score_is_shown_as_a_drop 78 78). reflexivity.
Defined.

(** X29. [formatElapsed] of a time that is not negative.  Below one minute
    it shows the whole seconds; from one minute on it shows minutes and
    seconds, the seconds below 60, which add up to the whole seconds
    elapsed. *)
Theorem formatElapsed_parts (ms : Z) :
  (0 <= ms)%Z ->
  ((ms < 60000)%Z ->
   ProgressStream.formatElapsed ms = ProgressStream.of_Z (ms / 1000) ++ "s")
  /\ ((60000 <= ms)%Z ->
      exists m s : Z,
        ProgressStream.formatElapsed ms
        = ProgressStream.of_Z m ++ "m " ++ ProgressStream.of_Z s ++ "s"
        /\ (1 <= m)%Z /\ (0 <= s < 60)%Z /\ (m * 60 + s = ms / 1000)%Z).
Proof.
  intros H. unfold ProgressStream.formatElapsed. split.
  - intros L. assert (ms / 1000 / 60 = 0)%Z as ->; [|reflexivity].
    rewrite Z.div_div by lia. apply Z.div_small. lia.
  - intros L. exists (ms / 1000 / 60)%Z, (Z.rem (ms / 1000) 60).
    assert (0 <= ms / 1000)%Z as P by (apply Z.div_pos; lia).
    assert (1 <= ms / 1000 / 60)%Z as M.
    { rewrite Z.div_div by lia. apply Z.div_le_lower_bound; lia. }
    rewrite Z.rem_mod_nonneg by lia.
    assert ((0 <? ms / 1000 / 60)%Z = true) as -> by (apply Z.ltb_lt; lia).
    split; [reflexivity|]. split; [exact M|].
    pose proof (Z.mod_pos_bound (ms / 1000) 60 ltac:(lia)).
    pose proof (Z.div_mod (ms / 1000) 60 ltac:(lia)). lia.
Qed.

Lemma formatElapsed_parts_witness :
  ProgressStream.formatElapsed 125500 = "2m 5s"
  /\ ProgressStream.formatElapsed 59999 = "59s".
Proof.
  destruct (formatElapsed_parts 59999) as [H _]; [lia|].
  split; [reflexivity | rewrite H by lia; reflexivity].
Defined.

Section Paste.

Lemma trimStart_clean (s : string) : starts_clean (trimStart s).
Proof.
  induction s as [|c s IH]; cbn; [exact I|].
  destruct (is_white c) eqn:W; [exact IH | exact W].
Qed.

Lemma trimStart_of_clean (s : string) : starts_clean s -> trimStart s = s.
Proof. destruct s as [|c s]; cbn; [reflexivity | now intros ->]. Qed.

Lemma trimEnd_clean (s : string) : starts_clean s -> starts_clean (trimEnd s).
Proof.
  destruct s as [|c s]; cbn; [trivial|]. intros W.
  destruct (trimEnd s); [now rewrite W | exact W].
Qed.

Lemma trimEnd_idempotent (s : string) : trimEnd (trimEnd s) = trimEnd s.
Proof.
  induction s as [|c s IH]; [reflexivity|].
  cbn [trimEnd]. destruct (trimEnd s) as [|d r] eqn:E.
  - destruct (is_white c) eqn:W; [reflexivity|]. cbn. now rewrite W.
  - cbn [trimEnd]. cbn [trimEnd] in IH. rewrite IH. reflexivity.
Qed.

Lemma trim_idempotent (s : string) : trim (trim s) = trim s.
Proof.
  unfold trim.
  rewrite (trimStart_of_clean (trimEnd (trimStart s)))
    by apply trimEnd_clean, trimStart_clean.
  apply trimEnd_idempotent.
Qed.

Lemma trimStart_blank (s : string) : trimStart s = "" <-> blank s = true.
Proof.
  induction s as [|c s IH]; cbn; [tauto|].
  destruct (is_white c); cbn; [exact IH|]. split; discriminate.
Qed.

Lemma trimEnd_clean_empty (s : string) : starts_clean s -> trimEnd s = "" -> s = "".
Proof.
  destruct s as [|c s]; cbn; [reflexivity|]. intros W.
  destruct (trimEnd s); [now rewrite W | discriminate].
Qed.

Lemma trim_blank (s : string) : trim s = "" <-> blank s = true.
Proof.
  rewrite <- trimStart_blank. unfold trim. split.
  - apply trimEnd_clean_empty, trimStart_clean.
  - now intros ->.
Qed.

(** X30. A paste of white space only hands over nothing, and only such a
    paste does.  The text that paste mode hands over is never empty and
    has no white space at either end: it is its own [trim], so loading
    it again would hand over the same text. *)
Theorem pasted_text_is_trimmed (pasteText : string) :
  (FileUpload.loadText pasteText = None <-> blank pasteText = true)
  /\ (forall t : string,
         FileUpload.loadText pasteText = Some t ->
         t <> "" /\ trim t = t /\ FileUpload.loadText t = Some t).
Proof.
  unfold FileUpload.loadText. rewrite <- trim_blank.
  destruct (truthy (trim pasteText)) eqn:T.
  - split.
    + split; [discriminate|]. intros E. rewrite E in T. discriminate.
    + intros t [= <-]. split; [now apply truthy_not_empty|].
      rewrite trim_idempotent, T. split; reflexivity.
  - split; [|discriminate]. split; [|reflexivity].
    intros _. now destruct (trim pasteText).
Qed.

End Paste.

Lemma pasted_text_is_trimmed_witness :
  FileUpload.loadText ("  " ++ nl) = None
  /\ FileUpload.loadText ("  As a user " ++ nl) = Some "As a user"
  /\ trim "As a user" = "As a user".
Proof.
  split; [apply (pasted_text_is_trimmed ("  " ++ nl)); reflexivity|].
  split; [reflexivity|].
  apply (pasted_text_is_trimmed ("  As a user " ++ nl)). reflexivity.
Defined.
